(** * dependency-review-action: the entry point [src/main.ts]

    A shallow embedding of [run] and of the printing helpers of
    [src/main.ts].  The program is effectful: it logs through
    [@actions/core], fills the job summary, marks the run failed with
    [core.setFailed] and catches what its collaborators throw.  The
    embedding threads a trace of those effects and a possible thrown value
    through a small writer/exception monad.  The pure functions main.ts
    imports (filters, license classification, grouping) are the fields
    of a record of imports; the outcomes of the fallible I/O
    collaborators are the fields of an environment record. *)

From Stdlib Require Import List String Ascii Bool ZArith Lia.
Import ListNotations.
Open Scope string_scope.

(** ** Data model ([./schemas]) *)

Inductive Severity : Type := critical | high | moderate | low.

(** [config.fail_on_severity]: a severity, or the string ['none']. *)
Inductive FailOnSeverity : Type :=
| fail_on (s : Severity)
| none.

Inductive Scope : Type := runtime | development.

Record Vulnerability : Type := mkVulnerability {
  severity : Severity;
  advisory_id : string;
  advisory_summary : string;
  advisory_url : string
}.

(** [change_type] is kept as the string main.ts reads it as
    ([const changeType: string = change.change_type]); [vulnerabilities]
    may be [undefined] (main.ts tests for it), [license] may be null. *)
Record Change : Type := mkChange {
  manifest : string;
  name : string;
  version : string;
  change_type : string;
  scope : Scope;
  license : option string;
  vulnerabilities : option (list Vulnerability)
}.

Definition Changes : Type := list Change.

(** The object returned by [getInvalidLicenseChanges]; main.ts reads its
    keys [forbidden], [unresolved] and [unlicensed]. *)
Record InvalidLicenseChanges : Type := mkInvalid {
  forbidden : Changes;
  unresolved : Changes;
  unlicensed : Changes
}.

Record ConfigOptions : Type := mkConfig {
  fail_on_severity : FailOnSeverity;
  fail_on_scopes : list Scope;
  allow_licenses : list string;
  deny_licenses : list string;
  allow_ghsas : list string;
  license_check : bool;
  vulnerability_check : bool;
  comment_summary_in_pr : bool
}.

(** ** Thrown values and effects *)

(** What a [catch] clause can receive: an octokit [RequestError] (an
    [Error] with a [status]), any other [Error], or a value that is not
    an [Error]. *)
Inductive Thrown : Type :=
| RequestError (status : Z) (message : string)
| Error (message : string)
| NotAnError.

(** Calls to the imported pipeline functions, recorded with their
    arguments. *)
Inductive Call : Type :=
| call_filterChangesByScopes (scopes : list Scope) (changes : Changes)
| call_filterAllowedAdvisories (ghsas : list string) (changes : Changes)
| call_filterChangesBySeverity (minSeverity : Severity) (changes : Changes)
| call_getInvalidLicenseChanges (changes : Changes) (allow deny : list string).

(** The observable effects of main.ts, in program order.  [Rejected]
    records that the promise of an [async] group callback was rejected:
    main.ts neither awaits nor returns that promise, so the rejection
    never reaches a [catch]; what the runtime does with an unhandled
    rejection is outside main.ts.  ([core.group] closes the group in a
    continuation of that promise; this is not an effect of main.ts and
    is not recorded.)  The calls to [./summary] are recorded with their
    arguments; [SummaryWrite] is the call [core.summary.write()]. *)
Inductive Event : Type :=
| Info (msg : string)
| Warning (msg : string)
| SetFailed (msg : string)
| StartGroup (title : string)
| Rejected (title : string) (e : Thrown)
| Called (c : Call)
| AddSummaryToSummary (vulnerableChanges : Changes)
    (invalidLicenseChanges : InvalidLicenseChanges) (config : ConfigOptions)
| AddChangeVulnerabilitiesToSummary (vulnerableChanges : Changes)
    (minSeverity : Severity)
| AddLicensesToSummary (invalidLicenseChanges : InvalidLicenseChanges)
    (config : ConfigOptions)
| AddScannedDependencies (changes : Changes)
| CommentPr
| SummaryWrite.

Definition Trace : Type := list Event.

(** A computation: the effects it performed and either the value it
    threw or the value it returned. *)
Definition M (A : Type) : Type := (Trace * (Thrown + A))%type.

Definition ret {A} (a : A) : M A := ([], inr a).

Definition bind {A B} (m : M A) (k : A -> M B) : M B :=
  match m with
  | (t, inl e) => (t, inl e)
  | (t, inr a) => let (t', r) := k a in ((t ++ t')%list, r)
  end.

Notation "x <- m ;; k" := (bind m (fun x => k))
  (at level 61, m at next level, right associativity).
Notation "m ;; k" := (bind m (fun _ => k))
  (at level 61, right associativity).

Definition emit (e : Event) : M unit := ([e], inr tt).

Definition throw {A} (e : Thrown) : M A := ([], inl e).

(** A call, awaited or not, whose outcome is given: it throws or it
    returns, without an effect of its own. *)
Definition lift {A} (r : Thrown + A) : M A := ([], r).

(** [try { body } catch (error) { handler error } finally { fin }] *)
Definition try_catch_finally (body : M unit) (handler : Thrown -> M unit)
    (fin : M unit) : M unit :=
  let caught :=
    match body with
    | (t, inl e) => let (t', r) := handler e in ((t ++ t')%list, r)
    | (t, inr a) => (t, inr a)
    end in
  let (t, r) := caught in
  let (t', r') := fin in
  ((t ++ t')%list, match r' with inl e => inl e | inr _ => r end).

(** [for (const x of xs) { body x }] *)
Fixpoint for_of {A} (xs : list A) (body : A -> M unit) : M unit :=
  match xs with
  | [] => ret tt
  | x :: xs' => body x ;; for_of xs' body
  end.

Definition trace {A} (m : M A) : Trace := fst m.
Definition outcome {A} (m : M A) : Thrown + A := snd m.

(** ** [@actions/core] and [ansi-styles] *)

Module core.
Definition info (msg : string) : M unit := emit (Info msg).
Definition warning (msg : string) : M unit := emit (Warning msg).
Definition setFailed (msg : string) : M unit := emit (SetFailed msg).

(** [core.group(title, async () => {...})], called without [await]:
    the group is opened and the callback runs to its end at once (it
    contains no [await]); what it throws rejects its promise and does
    not propagate to the caller. *)
Definition group (title : string) (fn : M unit) : M unit :=
  let (t, r) := fn in
  ((StartGroup title :: t ++
      match r with inl e => [Rejected title e] | inr _ => [] end)%list,
   inr tt).
End core.

Module styles.
Definition esc (code : string) : string :=
  String (ascii_of_nat 27) ("[" ++ code ++ "m").
Definition bold_open : string := esc "1".
Definition bold_close : string := esc "22".
Inductive color : Type := red | green | yellow | grey.
Definition color_open (c : color) : string :=
  match c with
  | red => esc "31"
  | green => esc "32"
  | yellow => esc "33"
  | grey => esc "90"
  end.
Definition color_close (c : color) : string := esc "39".
End styles.

Definition severity_string (s : Severity) : string :=
  match s with
  | critical => "critical"
  | high => "high"
  | moderate => "moderate"
  | low => "low"
  end.

(** [`${change.license}`]: a null license prints as [null]. *)
Definition license_string (l : option string) : string :=
  match l with Some s => s | None => "null" end.

(** ** The helpers of main.ts *)

Definition renderSeverity (sev : Severity) : string :=
  let color :=
    match sev with
    | critical => styles.red
    | high => styles.red
    | moderate => styles.yellow
    | low => styles.grey
    end in
  styles.color_open color ++ "(" ++ severity_string sev ++ " severity)"
    ++ styles.color_close color.

(** Iterating [change.vulnerabilities] when it is [undefined] is a
    [TypeError]. *)
Definition printChangeVulnerabilities (change : Change) : M unit :=
  match vulnerabilities change with
  | None => throw (Error "change.vulnerabilities is not iterable")
  | Some vulns =>
      for_of vulns (fun vuln =>
        core.info (styles.bold_open ++ manifest change ++ " » " ++ name change
                   ++ "@" ++ version change ++ styles.bold_close ++ " – "
                   ++ advisory_summary vuln ++ " "
                   ++ renderSeverity (severity vuln)) ;;
        core.info ("  ↪ " ++ advisory_url vuln))
  end.

Definition vulnerable_msg : string :=
  "Dependency review detected vulnerable packages.".

Definition printVulnerabilitiesBlock (addedChanges : Changes)
    (minSeverity : Severity) (failOnVulnerability : bool) : M unit :=
  core.group "Vulnerabilities" (
    vulFound <-
      (if (0 <? List.length addedChanges)%nat
       then for_of addedChanges printChangeVulnerabilities ;; ret true
       else ret false) ;;
    if vulFound : bool then
      let msg := vulnerable_msg in
      if failOnVulnerability then core.setFailed msg else core.warning msg
    else
      core.info ("Dependency review did not detect any vulnerable packages with severity level "
                 ++ String (ascii_of_nat 34) (severity_string minSeverity)
                 ++ String (ascii_of_nat 34) " or higher.")).

Definition printLicensesError (changes : Changes) : M unit :=
  for_of changes (fun change =>
    core.info (styles.bold_open ++ manifest change ++ " » " ++ name change
               ++ "@" ++ version change ++ styles.bold_close ++ " – License: "
               ++ styles.color_open styles.red ++ license_string (license change)
               ++ styles.color_close styles.red)).

Definition printNullLicenses (changes : Changes) : M unit :=
  if (List.length changes =? 0)%nat then ret tt
  else
    core.info (String (ascii_of_nat 10)
                 "We could not detect a license for the following dependencies:") ;;
    for_of changes (fun change =>
      core.info (styles.bold_open ++ manifest change ++ " » " ++ name change
                 ++ "@" ++ version change ++ styles.bold_close)).

Definition incompatible_msg : string :=
  "Dependency review detected incompatible licenses.".

Definition unresolved_msg : string :=
  "Dependency review could not detect the validity of all licenses.".

Definition printLicensesBlock (invalidLicenseChanges : InvalidLicenseChanges)
    (failOnVulnerability : bool) : M unit :=
  core.group "Licenses" (
    (if (0 <? List.length (forbidden invalidLicenseChanges))%nat then
       core.info (String (ascii_of_nat 10)
                    "The following dependencies have incompatible licenses:") ;;
       printLicensesError (forbidden invalidLicenseChanges) ;;
       let msg := incompatible_msg in
       if failOnVulnerability then core.setFailed msg else core.warning msg
     else ret tt) ;;
    (if (0 <? List.length (unresolved invalidLicenseChanges))%nat then
       core.warning (String (ascii_of_nat 10)
                       "The validity of the licenses of the dependencies below could not be determined. Ensure that they are valid SPDX licenses:") ;;
       printLicensesError (unresolved invalidLicenseChanges) ;;
       core.setFailed unresolved_msg
     else ret tt) ;;
    printNullLicenses (unlicensed invalidLicenseChanges)).

(** [renderScannedDependency]: the only [throw] statement of main.ts. *)
Definition renderScannedDependency (change : Change) : Thrown + string :=
  let changeType := change_type change in
  if negb (changeType =? "added") && negb (changeType =? "removed") then
    inl (Error ("Unexpected change type: " ++ changeType))
  else
    let color := if changeType =? "added" then styles.green else styles.red in
    let icon := if changeType =? "added" then "+" else "-" in
    inr (styles.color_open color ++ icon ++ " " ++ name change ++ "@"
         ++ version change ++ styles.color_close color).

(** ** The fallible collaborators of [run] *)

(** Outcomes of the asynchronous and I/O calls [run] makes: each either
    throws or returns.  [compare] may return no change set at all
    ([None]: a falsy value), which differs from an empty array. *)
Record Env : Type := mkEnv {
  context_owner : string;
  context_repo : string;
  readConfig : Thrown + ConfigOptions;
  getRefs : ConfigOptions -> Thrown + (string * string);
  compare : string -> string -> string -> string -> Thrown + option Changes;
  commentPr : Thrown + unit
}.

(** A JS [Map] iterates in insertion order: an association list. *)
Definition ManifestMap : Type := list (string * Changes).

Definition Map_keys (m : ManifestMap) : list string := map fst m.

Definition Map_get (m : ManifestMap) (key : string) : option Changes :=
  match find (fun kv => fst kv =? key) m with
  | Some kv => Some (snd kv)
  | None => None
  end.

(** The run is marked failed when [core.setFailed] was called. *)
Definition is_SetFailed (e : Event) : bool :=
  match e with SetFailed _ => true | _ => false end.

Definition failed (t : Trace) : bool := existsb is_SetFailed t.

Definition threw {A} (r : Thrown + A) : bool :=
  match r with inl _ => true | inr _ => false end.

Definition is_Info (e : Event) : bool :=
  match e with Info _ => true | _ => false end.

Definition nonempty {A} (l : list A) : bool := (0 <? List.length l)%nat.

(** ** The imported pure functions *)

(** The functions main.ts imports from [../src/filter], [./licenses]
    and [./utils]; none of them is among the sources. *)
Record Imports : Type := mkImports {
  filterChangesByScopes : list Scope -> Changes -> Changes;
  filterAllowedAdvisories : list string -> Changes -> Changes;
  filterChangesBySeverity : Severity -> Changes -> Changes;
  getInvalidLicenseChanges :
    Changes -> list string -> list string -> InvalidLicenseChanges;
  groupDependenciesByManifest : Changes -> ManifestMap
}.

(** ** Models of the imported functions *)

Module SpecModel.

(** Modelled from the spec: the severity ordinal of Section 3,
    [low < moderate < high < critical]. *)
Definition rank (s : Severity) : nat :=
  match s with low => 0 | moderate => 1 | high => 2 | critical => 3 end.

Definition Scope_eqb (a b : Scope) : bool :=
  match a, b with
  | runtime, runtime | development, development => true
  | _, _ => false
  end.

(** Membership by case-sensitive string equality. *)
Definition mem (s : string) (l : list string) : bool :=
  existsb (String.eqb s) l.

(** Modelled from the spec: [filterChangesByScopes] of ../src/filter is
    missing.  Section 4.1: retains a Change iff its scope is a member
    of the allowed scopes; an empty set allows all scopes. *)
Definition filterByScopes (allowedScopes : list Scope) (changes : Changes)
    : Changes :=
  match allowedScopes with
  | [] => changes
  | _ => filter (fun c => existsb (Scope_eqb (scope c)) allowedScopes) changes
  end.

(** Modelled from the spec: [filterAllowedAdvisories] of ../src/filter
    is missing.  Section 4.2: removes from each Change the
    vulnerabilities whose advisory id is allowed; the Change itself is
    retained. *)
Definition filterAllowedAdvisories (allowedIds : list string)
    (changes : Changes) : Changes :=
  map (fun c =>
         mkChange (manifest c) (name c) (version c) (change_type c)
           (scope c) (license c)
           (option_map
              (filter (fun v => negb (mem (advisory_id v) allowedIds)))
              (vulnerabilities c)))
      changes.

(** Modelled from the spec: [filterChangesBySeverity] of ../src/filter
    is missing.  Section 4.3: retains a Change iff at least one of its
    vulnerabilities has severity at or above the minimum. *)
Definition filterBySeverity (minSeverity : Severity) (changes : Changes)
    : Changes :=
  filter (fun c =>
            match vulnerabilities c with
            | Some vulns =>
                existsb (fun v => (rank minSeverity <=? rank (severity v))%nat)
                        vulns
            | None => false
            end)
         changes.

(** Modelled from the spec: the four outcomes of the license resolver
    (Section 2). *)
Inductive LicenseClass : Type :=
| Compliant | Forbidden | Unresolved | Unlicensed.

Definition LicenseClass_eqb (a b : LicenseClass) : bool :=
  match a, b with
  | Compliant, Compliant | Forbidden, Forbidden
  | Unresolved, Unresolved | Unlicensed, Unlicensed => true
  | _, _ => false
  end.

(** Modelled from the spec: the license resolver
    ([getInvalidLicenseChanges] of ./licenses) is missing.  Section 4.5:
    an absent license is unlicensed; a license the resolver cannot
    evaluate is unresolved, before any list is consulted; with a
    non-empty deny list a license is forbidden iff it is in it;
    otherwise with a non-empty allow list iff it is not in it;
    otherwise never.  What the resolver can evaluate is the parameter
    [evaluable]. *)
Definition classify (evaluable : string -> bool) (allow deny : list string)
    (c : Change) : LicenseClass :=
  match license c with
  | None => Unlicensed
  | Some l =>
      if negb (evaluable l) then Unresolved
      else if nonempty deny then
             (if mem l deny then Forbidden else Compliant)
      else if nonempty allow then
             (if mem l allow then Compliant else Forbidden)
      else Compliant
  end.

(** The changes of one class, in input order. *)
Definition bucket (evaluable : string -> bool) (allow deny : list string)
    (k : LicenseClass) (changes : Changes) : Changes :=
  filter (fun c => LicenseClass_eqb (classify evaluable allow deny c) k)
         changes.

(** Modelled from the spec: [resolveLicenses] of Section 4.5, the three
    buckets of the classification, each in input order. *)
Definition resolveLicenses (evaluable : string -> bool) (changes : Changes)
    (allow deny : list string) : InvalidLicenseChanges :=
  mkInvalid (bucket evaluable allow deny Forbidden changes)
            (bucket evaluable allow deny Unresolved changes)
            (bucket evaluable allow deny Unlicensed changes).

Definition idchar (a : ascii) : bool :=
  let n := nat_of_ascii a in
  ((48 <=? n) && (n <=? 57) || (65 <=? n) && (n <=? 90)
   || (97 <=? n) && (n <=? 122) || (n =? 45) || (n =? 46) || (n =? 43))%nat.

(** Modelled from the spec: SPDX parsing is missing.  Section 4.5
    speaks of a syntactically valid single SPDX identifier: a
    non-empty run of letters, digits, [-], [.] and [+]. *)
Definition single_spdx_identifier (s : string) : bool :=
  nonempty (list_ascii_of_string s)
  && forallb idchar (list_ascii_of_string s).

Fixpoint group_insert (c : Change) (m : ManifestMap) : ManifestMap :=
  match m with
  | [] => [(manifest c, [c])]
  | (k, cs) :: m' =>
      if k =? manifest c then (k, (cs ++ [c])%list) :: m'
      else (k, cs) :: group_insert c m'
  end.

(** Modelled from the spec: [groupDependenciesByManifest] of ./utils is
    missing; the spec names only the grouping for display.  The changes
    of each manifest, manifests in order of first occurrence. *)
Definition groupDependenciesByManifest (changes : Changes) : ManifestMap :=
  fold_left (fun m c => group_insert c m) changes [].

(** Following the spec's words (Section 6), for comparison with what
    [run] does: fail iff ([fail_on_severity != none] and the
    vulnerable changes are non-empty) or (a license policy is
    configured and [forbidden] or [unresolved] is non-empty). *)
Definition license_policy_configured (config : ConfigOptions) : bool :=
  nonempty (allow_licenses config) || nonempty (deny_licenses config).

Definition overall_fail (config : ConfigOptions)
    (vulnerableChanges : Changes)
    (invalidLicenseChanges : InvalidLicenseChanges) : bool :=
  (match fail_on_severity config with none => false | fail_on _ => true end
   && nonempty vulnerableChanges)
  || (license_policy_configured config
      && (nonempty (forbidden invalidLicenseChanges)
          || nonempty (unresolved invalidLicenseChanges))).

(** The models above, as the imports of main.ts; the resolver
    evaluates single SPDX identifiers. *)
Definition imports : Imports :=
  mkImports filterByScopes filterAllowedAdvisories filterBySeverity
    (resolveLicenses single_spdx_identifier) groupDependenciesByManifest.

End SpecModel.

(** ** Sample data *)

Module Sample.

Definition vuln (sev : Severity) (id : string) : Vulnerability :=
  mkVulnerability sev id "Prototype pollution" "https://github.com/advisories".

Definition added_high : Change :=
  mkChange "package-lock.json" "lodash" "4.17.20" "added" runtime
    (Some "MIT") (Some [vuln high "GHSA-p6mc-m468-83gw"]).

Definition removed_critical : Change :=
  mkChange "package-lock.json" "minimist" "1.2.0" "removed" runtime
    (Some "MIT") (Some [vuln critical "GHSA-xvch-5gv4-984h"]).

Definition added_gpl : Change :=
  mkChange "Gemfile.lock" "readline" "0.0.3" "added" runtime
    (Some "GPL-3.0") (Some []).

Definition added_compound : Change :=
  mkChange "Gemfile.lock" "rake" "13.0.6" "added" development
    (Some "MIT OR (Apache-2.0 AND") (Some []).

Definition updated : Change :=
  mkChange "go.mod" "golang.org/x/net" "0.7.0" "updated" runtime
    (Some "BSD-3-Clause") (Some []).

Definition added_unscanned : Change :=
  mkChange "Cargo.lock" "serde" "1.0.152" "added" runtime
    (Some "MIT") None.

Definition config (fos : FailOnSeverity) (deny : list string)
    (license vulnerability comment : bool) : ConfigOptions :=
  mkConfig fos [runtime; development] [] deny [] license vulnerability
    comment.

Definition env (cfg : ConfigOptions) (changes : option Changes)
    (comment : Thrown + unit) : Env :=
  mkEnv "octo-org" "octo-repo" (inr cfg)
    (fun _ => inr ("main", "feature"))
    (fun _ _ _ _ => inr changes)
    comment.

(** The comparison is answered with 404. *)
Definition env_not_found : Env :=
  mkEnv "octo-org" "octo-repo" (inr (config (fail_on low) [] true true false))
    (fun _ => inr ("main", "feature"))
    (fun _ _ _ _ => inl (RequestError 404 "Not Found"))
    (inr tt).

(** fail_on_severity moderate, both checks on. *)
Definition config_moderate : ConfigOptions :=
  config (fail_on moderate) [] true true false.

(** fail_on_severity none, both checks on. *)
Definition config_none : ConfigOptions :=
  config none [] true true false.

(** fail_on_severity low, the vulnerability check off. *)
Definition config_no_vulnerability_check : ConfigOptions :=
  config (fail_on low) [] true false false.

(** fail_on_severity none, GPL-3.0 denied, both checks on. *)
Definition config_none_deny_gpl : ConfigOptions :=
  config none ["GPL-3.0"] true true false.

(** No license list at all, both checks on. *)
Definition config_no_license_policy : ConfigOptions :=
  config (fail_on low) [] true true false.

(** GPL-3.0 denied, the license check off. *)
Definition config_no_license_check : ConfigOptions :=
  config (fail_on low) ["GPL-3.0"] false true false.

(** Both checks off. *)
Definition config_checks_off : ConfigOptions :=
  config (fail_on low) [] false false false.

(** The summary is posted as a comment. *)
Definition config_comment : ConfigOptions :=
  config (fail_on low) [] true true true.

End Sample.

(** ** [run] *)

Section Main.

Variable imp : Imports.

(** A call to an imported pipeline function: recorded, then its value. *)
Definition invoke {A} (c : Call) (v : A) : M A := emit (Called c) ;; ret v.

Definition printScannedDependencies (changes : Changes) : M unit :=
  core.group "Dependency Changes" (
    let dependencies := groupDependenciesByManifest imp changes in
    for_of (Map_keys dependencies) (fun manifestName =>
      let manifestChanges :=
        match Map_get dependencies manifestName with
        | Some cs => cs
        | None => []
        end in
      core.info ("File: " ++ styles.bold_open ++ manifestName
                 ++ styles.bold_close) ;;
      for_of manifestChanges (fun change =>
        line <- lift (renderScannedDependency change) ;;
        core.info line))).

(** The predicate of the [.filter] that follows the severity filter. *)
Definition added_with_vulnerabilities (change : Change) : bool :=
  (change_type change =? "added")
  && match vulnerabilities change with
     | Some vulns => (0 <? List.length vulns)%nat
     | None => false
     end.

(** The [catch] clause. *)
Definition on_error (env : Env) (error : Thrown) : M unit :=
  match error with
  | RequestError status message =>
      if (status =? 404)%Z then
        core.setFailed "Dependency review could not obtain dependency data for the specified owner, repository, or revision range."
      else if (status =? 403)%Z then
        core.setFailed ("Dependency review is not supported on this repository. Please ensure that Dependency graph is enabled along with GitHub Advanced Security on private repositories, see https://github.com/"
                        ++ context_owner env ++ "/" ++ context_repo env
                        ++ "/settings/security_analysis")
      else core.setFailed message
  | Error message => core.setFailed message
  | NotAnError => core.setFailed "Unexpected fatal error"
  end.

Definition skip_msg : string :=
  "No Dependency Changes found. Skipping Dependency Review.".

Definition run (env : Env) : M unit :=
  try_catch_finally
    (config <- lift (readConfig env) ;;
     refs <- lift (getRefs env config) ;;
     changes <- lift (compare env (context_owner env) (context_repo env)
                               (fst refs) (snd refs)) ;;
     match changes with
     | None => core.info skip_msg
     | Some changes =>
         let failOnSeverityParams := fail_on_severity config in
         let failOnVulnerability :=
           match fail_on_severity config with
           | none => false
           | fail_on _ => true
           end in
         let minSeverity :=
           match failOnSeverityParams with
           | none => low
           | fail_on s => s
           end in
         scopedChanges <-
           invoke (call_filterChangesByScopes (fail_on_scopes config) changes)
                  (filterChangesByScopes imp (fail_on_scopes config) changes) ;;
         filteredChanges <-
           invoke (call_filterAllowedAdvisories (allow_ghsas config)
                                                scopedChanges)
                  (filterAllowedAdvisories imp (allow_ghsas config)
                                           scopedChanges) ;;
         severe <-
           invoke (call_filterChangesBySeverity minSeverity filteredChanges)
                  (filterChangesBySeverity imp minSeverity filteredChanges) ;;
         let vulnerableChanges := filter added_with_vulnerabilities severe in
         invalidLicenseChanges <-
           invoke (call_getInvalidLicenseChanges filteredChanges
                     (allow_licenses config) (deny_licenses config))
                  (getInvalidLicenseChanges imp filteredChanges
                     (allow_licenses config) (deny_licenses config)) ;;
         emit (AddSummaryToSummary vulnerableChanges invalidLicenseChanges
                                   config) ;;
         (if vulnerability_check config then
            emit (AddChangeVulnerabilitiesToSummary vulnerableChanges
                                                    minSeverity) ;;
            printVulnerabilitiesBlock vulnerableChanges minSeverity
                                      failOnVulnerability
          else ret tt) ;;
         (if license_check config then
            emit (AddLicensesToSummary invalidLicenseChanges config) ;;
            printLicensesBlock invalidLicenseChanges failOnVulnerability
          else ret tt) ;;
         emit (AddScannedDependencies changes) ;;
         printScannedDependencies changes ;;
         (if comment_summary_in_pr config then
            emit CommentPr ;; lift (commentPr env)
          else ret tt)
     end)
    (on_error env)
    (emit SummaryWrite).

(** *** The values [run] computes, named as in main.ts *)

Definition minSeverity_of (config : ConfigOptions) : Severity :=
  match fail_on_severity config with none => low | fail_on s => s end.

Definition failOnVulnerability_of (config : ConfigOptions) : bool :=
  match fail_on_severity config with none => false | fail_on _ => true end.

Definition scopedChanges_of (config : ConfigOptions) (changes : Changes) :=
  filterChangesByScopes imp (fail_on_scopes config) changes.

Definition filteredChanges_of (config : ConfigOptions) (changes : Changes) :=
  filterAllowedAdvisories imp (allow_ghsas config)
    (scopedChanges_of config changes).

Definition vulnerableChanges_of (config : ConfigOptions)
    (changes : Changes) : Changes :=
  filter added_with_vulnerabilities
    (filterChangesBySeverity imp (minSeverity_of config)
       (filteredChanges_of config changes)).

Definition invalidLicenseChanges_of (config : ConfigOptions)
    (changes : Changes) : InvalidLicenseChanges :=
  getInvalidLicenseChanges imp (filteredChanges_of config changes)
    (allow_licenses config) (deny_licenses config).

(** *** The segments of the trace of an evaluation *)

Definition pipeline_part (config : ConfigOptions) (changes : Changes)
    : Trace :=
  [Called (call_filterChangesByScopes (fail_on_scopes config) changes);
   Called (call_filterAllowedAdvisories (allow_ghsas config)
             (scopedChanges_of config changes));
   Called (call_filterChangesBySeverity (minSeverity_of config)
             (filteredChanges_of config changes));
   Called (call_getInvalidLicenseChanges (filteredChanges_of config changes)
             (allow_licenses config) (deny_licenses config));
   AddSummaryToSummary (vulnerableChanges_of config changes)
     (invalidLicenseChanges_of config changes) config].

Definition vulnerability_part (config : ConfigOptions) (changes : Changes)
    : Trace :=
  if vulnerability_check config then
    AddChangeVulnerabilitiesToSummary (vulnerableChanges_of config changes)
      (minSeverity_of config)
    :: trace (printVulnerabilitiesBlock (vulnerableChanges_of config changes)
                (minSeverity_of config) (failOnVulnerability_of config))
  else [].

Definition license_part (config : ConfigOptions) (changes : Changes)
    : Trace :=
  if license_check config then
    AddLicensesToSummary (invalidLicenseChanges_of config changes) config
    :: trace (printLicensesBlock (invalidLicenseChanges_of config changes)
                (failOnVulnerability_of config))
  else [].

Definition comment_part (env : Env) (config : ConfigOptions) : Trace :=
  if comment_summary_in_pr config then
    CommentPr ::
    match commentPr env with
    | inl e => trace (on_error env e)
    | inr _ => []
    end
  else [].

(** [run] got a configuration, refs and a change set (possibly none). *)
Definition reaches (env : Env) (config : ConfigOptions)
    (changes : option Changes) : Prop :=
  readConfig env = inr config /\
  exists refs,
    getRefs env config = inr refs /\
    compare env (context_owner env) (context_repo env) (fst refs) (snd refs)
      = inr changes.

(** What a collaborator threw before any change set was obtained. *)
Definition early_error (env : Env) : option Thrown :=
  match readConfig env with
  | inl e => Some e
  | inr config =>
      match getRefs env config with
      | inl e => Some e
      | inr refs =>
          match compare env (context_owner env) (context_repo env)
                        (fst refs) (snd refs) with
          | inl e => Some e
          | inr _ => None
          end
      end
  end.

End Main.

(** ** The lines of the reports *)

(** The two lines [printChangeVulnerabilities] logs for a vulnerability
    of a change. *)
Definition vulnerability_lines (change : Change) (vuln : Vulnerability)
    : Trace :=
  [Info (styles.bold_open ++ manifest change ++ " » " ++ name change
         ++ "@" ++ version change ++ styles.bold_close ++ " – "
         ++ advisory_summary vuln ++ " " ++ renderSeverity (severity vuln));
   Info ("  ↪ " ++ advisory_url vuln)].

(** The line [printLicensesError] logs for a change. *)
Definition license_line (change : Change) : Event :=
  Info (styles.bold_open ++ manifest change ++ " » " ++ name change
        ++ "@" ++ version change ++ styles.bold_close ++ " – License: "
        ++ styles.color_open styles.red ++ license_string (license change)
        ++ styles.color_close styles.red).

(** The line [printNullLicenses] logs for a change. *)
Definition unlicensed_line (change : Change) : Event :=
  Info (styles.bold_open ++ manifest change ++ " » " ++ name change
        ++ "@" ++ version change ++ styles.bold_close).

(** The line [printVulnerabilitiesBlock] logs when it is given no
    change. *)
Definition all_clear_line (minSeverity : Severity) : Event :=
  Info ("Dependency review did not detect any vulnerable packages with severity level "
        ++ String (ascii_of_nat 34) (severity_string minSeverity)
        ++ String (ascii_of_nat 34) " or higher.").

(** The number of vulnerabilities a change carries. *)
Definition vulnerability_count (change : Change) : nat :=
  match vulnerabilities change with
  | Some vulns => List.length vulns
  | None => 0
  end.

(** The headers [printLicensesBlock] and [printNullLicenses] log. *)
Definition incompatible_header : string :=
  String (ascii_of_nat 10)
    "The following dependencies have incompatible licenses:".

Definition unresolved_header : string :=
  String (ascii_of_nat 10)
    "The validity of the licenses of the dependencies below could not be determined. Ensure that they are valid SPDX licenses:".

Definition unlicensed_header : string :=
  String (ascii_of_nat 10)
    "We could not detect a license for the following dependencies:".

(** An environment in which posting the comment has another outcome. *)
Definition posting (env : Env) (comment : Thrown + unit) : Env :=
  mkEnv (context_owner env) (context_repo env) (readConfig env)
    (getRefs env) (compare env) comment.

Definition is_Called (e : Event) : bool :=
  match e with Called _ => true | _ => false end.

Definition known_change_type (change : Change) : Prop :=
  change_type change = "added" \/ change_type change = "removed".

(** The changes [printScannedDependencies] prints under a manifest. *)
Definition manifest_changes (m : ManifestMap) (manifestName : string)
    : Changes :=
  match Map_get m manifestName with
  | Some cs => cs
  | None => []
  end.

(** * Properties *)

Section Properties.

Local Open Scope list_scope.

Variable imp : Imports.

(** ** Laws of the effect monad *)

Lemma bind_returns {A B} (m : M A) (k : A -> M B) (a : A) :
  outcome m = inr a ->
  bind m k = ((trace m ++ trace (k a))%list, outcome (k a)).
Proof.
  destruct m as [t r]; simpl; intros ->.
  destruct (k a); reflexivity.
Qed.

Lemma group_outcome title fn : outcome (core.group title fn) = inr tt.
Proof. unfold core.group; destruct fn; reflexivity. Qed.

Lemma group_trace title fn :
  trace (core.group title fn) =
  (StartGroup title :: trace fn ++
     match outcome fn with inl e => [Rejected title e] | inr _ => [] end)%list.
Proof. unfold core.group; destruct fn; reflexivity. Qed.

Lemma on_error_sets_failed env e :
  exists msg, on_error env e = ([SetFailed msg], inr tt).
Proof.
  destruct e as [status message | message |]; simpl.
  - destruct (status =? 404)%Z; [eexists; reflexivity |].
    destruct (status =? 403)%Z; eexists; reflexivity.
  - eexists; reflexivity.
  - eexists; reflexivity.
Qed.

(** The whole trace of a run that got a change set. *)
Lemma run_evaluates env config changes :
  reaches env config (Some changes) ->
  trace (run imp env) =
    (pipeline_part imp config changes
     ++ vulnerability_part imp config changes
     ++ license_part imp config changes
     ++ AddScannedDependencies changes
        :: trace (printScannedDependencies imp changes)
     ++ comment_part env config
     ++ [SummaryWrite])%list.
Proof.
  intros [Hc [refs [Hr Hd]]].
  unfold run, try_catch_finally. rewrite Hc. cbn [lift bind].
  rewrite Hr. cbn [lift bind]. rewrite Hd. cbn [lift bind].
  unfold invoke. cbn [emit ret bind app].
  unfold pipeline_part, vulnerability_part, license_part, comment_part.
  fold (minSeverity_of config) (failOnVulnerability_of config).
  fold (scopedChanges_of imp config changes).
  fold (filteredChanges_of imp config changes).
  fold (vulnerableChanges_of imp config changes).
  fold (invalidLicenseChanges_of imp config changes).
  assert (Hv : outcome (printVulnerabilitiesBlock
                          (vulnerableChanges_of imp config changes)
                          (minSeverity_of config)
                          (failOnVulnerability_of config)) = inr tt)
    by apply group_outcome.
  assert (Hl : outcome (printLicensesBlock
                          (invalidLicenseChanges_of imp config changes)
                          (failOnVulnerability_of config)) = inr tt)
    by apply group_outcome.
  assert (Hs : outcome (printScannedDependencies imp changes) = inr tt)
    by apply group_outcome.
  destruct (printVulnerabilitiesBlock _ _ _) as [tv rv].
  destruct (printLicensesBlock _ _) as [tl rl].
  destruct (printScannedDependencies imp changes) as [ts rs].
  simpl in Hv, Hl, Hs; subst rv rl rs.
  destruct (vulnerability_check config), (license_check config),
    (comment_summary_in_pr config);
    try (destruct (commentPr env) as [e | []];
         [destruct (on_error_sets_failed env e) as [msg Hmsg] |]);
    cbn; rewrite ?Hmsg; cbn;
    repeat (rewrite <- app_assoc; cbn [app]); reflexivity.
Qed.

(** ** What the printing helpers emit *)

Lemma failed_app t1 t2 : failed (t1 ++ t2) = failed t1 || failed t2.
Proof. apply existsb_app. Qed.

Lemma failed_cons e t : failed (e :: t) = is_SetFailed e || failed t.
Proof. reflexivity. Qed.

Lemma infos_not_failed t : forallb is_Info t = true -> failed t = false.
Proof.
  induction t as [| e t IH]; simpl; [reflexivity |].
  destruct e; simpl; try discriminate; exact IH.
Qed.

Lemma infos_bind {A B} (m : M A) (k : A -> M B) :
  forallb is_Info (trace m) = true ->
  (forall a, forallb is_Info (trace (k a)) = true) ->
  forallb is_Info (trace (bind m k)) = true.
Proof.
  destruct m as [t [e | a]]; simpl; intros Ht Hk; [exact Ht |].
  specialize (Hk a). destruct (k a) as [t' r]; simpl in *.
  rewrite forallb_app, Ht, Hk; reflexivity.
Qed.

Lemma infos_for_of {A} (xs : list A) (body : A -> M unit) :
  (forall x, forallb is_Info (trace (body x)) = true) ->
  forallb is_Info (trace (for_of xs body)) = true.
Proof.
  intros Hbody; induction xs as [| x xs IH]; simpl; [reflexivity |].
  apply infos_bind; [apply Hbody | intros _; exact IH].
Qed.

Lemma for_of_returns {A} (xs : list A) (body : A -> M unit) :
  (forall x, In x xs -> outcome (body x) = inr tt) ->
  outcome (for_of xs body) = inr tt.
Proof.
  induction xs as [| x xs IH]; intros Hbody; simpl; [reflexivity |].
  rewrite (bind_returns _ _ tt) by (apply Hbody; left; reflexivity).
  simpl. apply IH. intros y Hy; apply Hbody; right; exact Hy.
Qed.

Lemma printChangeVulnerabilities_infos change :
  forallb is_Info (trace (printChangeVulnerabilities change)) = true.
Proof.
  unfold printChangeVulnerabilities.
  destruct (vulnerabilities change) as [vulns |]; [| reflexivity].
  apply infos_for_of; intros vuln; reflexivity.
Qed.

Lemma printChangeVulnerabilities_returns change :
  vulnerabilities change <> None ->
  outcome (printChangeVulnerabilities change) = inr tt.
Proof.
  unfold printChangeVulnerabilities.
  destruct (vulnerabilities change) as [vulns |]; [intros _ | congruence].
  apply for_of_returns; intros vuln _; reflexivity.
Qed.

Lemma printLicensesError_infos changes :
  forallb is_Info (trace (printLicensesError changes)) = true.
Proof. apply infos_for_of; intros change; reflexivity. Qed.

Lemma printLicensesError_returns changes :
  outcome (printLicensesError changes) = inr tt.
Proof. apply for_of_returns; intros change _; reflexivity. Qed.

Lemma printNullLicenses_infos changes :
  forallb is_Info (trace (printNullLicenses changes)) = true.
Proof.
  unfold printNullLicenses. destruct (List.length changes =? 0)%nat;
    [reflexivity |].
  apply infos_bind; [reflexivity | intros _].
  apply infos_for_of; intros change; reflexivity.
Qed.

Lemma printNullLicenses_returns changes :
  outcome (printNullLicenses changes) = inr tt.
Proof.
  unfold printNullLicenses. destruct (List.length changes =? 0)%nat;
    [reflexivity |].
  rewrite (bind_returns _ _ tt) by reflexivity. simpl.
  apply for_of_returns; intros change _; reflexivity.
Qed.

(** The vulnerabilities block, when every change it is given has its
    list of vulnerabilities. *)
Lemma printVulnerabilitiesBlock_trace addedChanges minSeverity fov :
  (forall c, In c addedChanges -> vulnerabilities c <> None) ->
  exists infos,
    forallb is_Info infos = true /\
    trace (printVulnerabilitiesBlock addedChanges minSeverity fov) =
      (StartGroup "Vulnerabilities" :: infos ++
         [if nonempty addedChanges
          then (if fov then SetFailed vulnerable_msg
                else Warning vulnerable_msg)
          else Info ("Dependency review did not detect any vulnerable packages with severity level "
                     ++ String (ascii_of_nat 34) (severity_string minSeverity)
                     ++ String (ascii_of_nat 34) " or higher.")%string]).
Proof.
  intros Hdef. unfold printVulnerabilitiesBlock, nonempty.
  rewrite group_trace.
  destruct (0 <? List.length addedChanges)%nat.
  - exists (trace (for_of addedChanges printChangeVulnerabilities)).
    split; [apply infos_for_of, printChangeVulnerabilities_infos |].
    assert (Hr : outcome (for_of addedChanges printChangeVulnerabilities)
                 = inr tt)
      by (apply for_of_returns; intros c Hc;
          apply printChangeVulnerabilities_returns, Hdef, Hc).
    destruct (for_of addedChanges printChangeVulnerabilities) as [t r].
    simpl in Hr; subst r. destruct fov; cbn; rewrite app_nil_r;
      rewrite <- app_assoc; reflexivity.
  - exists []. split; reflexivity.
Qed.

Lemma printLicensesBlock_trace invalidLicenseChanges fov :
  exists i1 i2 i3 h1 h2,
    forallb is_Info i1 = true /\ forallb is_Info i2 = true /\
    forallb is_Info i3 = true /\
    trace (printLicensesBlock invalidLicenseChanges fov) =
      StartGroup "Licenses" ::
        (if nonempty (forbidden invalidLicenseChanges)
         then Info h1 :: i1 ++
                [if fov then SetFailed incompatible_msg
                 else Warning incompatible_msg]
         else []) ++
        (if nonempty (unresolved invalidLicenseChanges)
         then Warning h2 :: i2 ++ [SetFailed unresolved_msg]
         else []) ++ i3.
Proof.
  exists (trace (printLicensesError (forbidden invalidLicenseChanges))),
         (trace (printLicensesError (unresolved invalidLicenseChanges))),
         (trace (printNullLicenses (unlicensed invalidLicenseChanges))).
  do 2 eexists.
  repeat split; try apply printLicensesError_infos;
    try apply printNullLicenses_infos.
  unfold printLicensesBlock, nonempty. rewrite group_trace.
  pose proof (printLicensesError_returns (forbidden invalidLicenseChanges))
    as Hf.
  pose proof (printLicensesError_returns (unresolved invalidLicenseChanges))
    as Hu.
  pose proof (printNullLicenses_returns (unlicensed invalidLicenseChanges))
    as Hn.
  destruct (printLicensesError (forbidden invalidLicenseChanges)) as [tf rf].
  destruct (printLicensesError (unresolved invalidLicenseChanges)) as [tu ru].
  destruct (printNullLicenses (unlicensed invalidLicenseChanges)) as [tn rn].
  simpl in Hf, Hu, Hn; subst rf ru rn.
  destruct (0 <? List.length (forbidden invalidLicenseChanges))%nat,
           (0 <? List.length (unresolved invalidLicenseChanges))%nat,
           fov; cbn; rewrite ?app_nil_r;
    repeat (rewrite <- app_assoc; cbn [app]); reflexivity.
Qed.

Lemma for_of_throws {A} (xs : list A) (body : A -> M unit) e :
  outcome (for_of xs body) = inl e ->
  exists x, In x xs /\ outcome (body x) = inl e.
Proof.
  induction xs as [| x xs IH]; simpl; [discriminate |].
  destruct (body x) as [t [e0 | []]] eqn:Hx; simpl.
  - intros [= ->]. exists x; split; [left; reflexivity |].
    rewrite Hx; reflexivity.
  - destruct (for_of xs body) as [t' r'] eqn:Hxs; simpl in *.
    intros ->. destruct (IH eq_refl) as [y [Hy Hey]].
    exists y; split; [right; exact Hy | exact Hey].
Qed.

Lemma for_of_throws_at {A} (xs : list A) (body : A -> M unit) x :
  In x xs ->
  (exists e, outcome (body x) = inl e) ->
  exists e, outcome (for_of xs body) = inl e.
Proof.
  intros Hin Hx. induction xs as [| y xs IH]; [destruct Hin |].
  simpl. destruct (body y) as [t [e | []]] eqn:Hy.
  - exists e; reflexivity.
  - destruct Hin as [-> | Hin].
    + rewrite Hy in Hx. destruct Hx as [e He]; discriminate.
    + destruct (IH Hin) as [e He]. exists e.
      destruct (for_of xs body) as [t' r']; simpl in *; exact He.
Qed.

(** The dependency listing: what it logs, and the one way its
    callback can be rejected. *)
Lemma printScannedDependencies_trace changes :
  exists infos rejection,
    forallb is_Info infos = true /\
    (rejection = [] \/
     exists change e,
       rejection = [Rejected "Dependency Changes" e] /\
       renderScannedDependency change = inl e) /\
    trace (printScannedDependencies imp changes) =
      StartGroup "Dependency Changes" :: infos ++ rejection.
Proof.
  unfold printScannedDependencies. rewrite group_trace.
  match goal with |- context [trace ?b] => set (body := b) end.
  exists (trace body),
    (match outcome body with
     | inl e => [Rejected "Dependency Changes" e]
     | inr _ => []
     end).
  split; [| split; [| reflexivity]].
  - apply infos_for_of; intros manifestName.
    apply infos_bind; [reflexivity | intros _].
    apply infos_for_of; intros change.
    apply infos_bind; [reflexivity | intros line; reflexivity].
  - destruct (outcome body) as [e | u] eqn:Hbody; [right | left; reflexivity].
    apply for_of_throws in Hbody. destruct Hbody as [manifestName [_ Hm]].
    rewrite (bind_returns _ _ tt) in Hm by reflexivity.
    assert (Hin := Hm : outcome (for_of _ _) = inl e).
    apply for_of_throws in Hin. destruct Hin as [change [_ Hc]].
    exists change, e; split; [reflexivity |].
    unfold lift in Hc.
    destruct (renderScannedDependency change) as [e0 | line];
      simpl in Hc; congruence.
Qed.

(** ** The paths of [run] *)

Lemma run_cases env :
  (exists e, early_error env = Some e) \/
  (exists config changes, reaches env config changes).
Proof.
  unfold early_error, reaches.
  destruct (readConfig env) as [e | config]; [left; eauto |].
  destruct (getRefs env config) as [e | refs] eqn:Hr; [left; eauto |].
  destruct (compare env _ _ (fst refs) (snd refs)) as [e | changes] eqn:Hd;
    [left; eauto |].
  right; exists config, changes; split; [reflexivity |].
  exists refs; split; [exact Hr | exact Hd].
Qed.

Lemma run_catches env e :
  early_error env = Some e ->
  exists msg, trace (run imp env) = [SetFailed msg; SummaryWrite].
Proof.
  unfold early_error, run, try_catch_finally.
  destruct (readConfig env) as [e0 | config]; cbn [lift bind].
  { intros [= ->]. destruct (on_error_sets_failed env e) as [msg ->].
    exists msg; reflexivity. }
  destruct (getRefs env config) as [e0 | refs]; cbn [lift bind].
  { intros [= ->]. destruct (on_error_sets_failed env e) as [msg ->].
    exists msg; reflexivity. }
  destruct (compare env _ _ (fst refs) (snd refs)) as [e0 | changes];
    cbn [lift bind]; [| discriminate].
  intros [= ->]. destruct (on_error_sets_failed env e) as [msg ->].
  exists msg; reflexivity.
Qed.

Lemma run_skips env config :
  reaches env config None ->
  trace (run imp env) = [Info skip_msg; SummaryWrite].
Proof.
  intros [Hc [refs [Hr Hd]]].
  unfold run, try_catch_finally. rewrite Hc. cbn [lift bind].
  rewrite Hr. cbn [lift bind]. rewrite Hd. reflexivity.
Qed.

(** ** The vulnerable changes *)

Lemma vulnerableChanges_added config changes c :
  In c (vulnerableChanges_of imp config changes) ->
  change_type c = "added"%string /\
  exists vulns, vulnerabilities c = Some vulns /\ vulns <> [].
Proof.
  unfold vulnerableChanges_of. intros Hin.
  apply filter_In in Hin. destruct Hin as [_ Hp].
  unfold added_with_vulnerabilities in Hp.
  apply andb_true_iff in Hp. destruct Hp as [Ht Hv].
  apply String.eqb_eq in Ht. split; [exact Ht |].
  destruct (vulnerabilities c) as [vulns |]; [| discriminate].
  exists vulns; split; [reflexivity |].
  destruct vulns; discriminate.
Qed.

(** ** When the run is marked failed *)

Lemma failed_vulnerability_part config changes :
  failed (vulnerability_part imp config changes) =
  vulnerability_check config && failOnVulnerability_of config
  && nonempty (vulnerableChanges_of imp config changes).
Proof.
  unfold vulnerability_part.
  destruct (vulnerability_check config); [| reflexivity].
  destruct (printVulnerabilitiesBlock_trace
              (vulnerableChanges_of imp config changes)
              (minSeverity_of config) (failOnVulnerability_of config))
    as [infos [Hinfos ->]].
  { intros c Hc. apply vulnerableChanges_added in Hc.
    destruct Hc as [_ [vulns [-> _]]]; discriminate. }
  rewrite !failed_cons. cbn [is_SetFailed orb].
  rewrite failed_app, (infos_not_failed _ Hinfos).
  destruct (nonempty _), (failOnVulnerability_of config); reflexivity.
Qed.

Lemma failed_license_part config changes :
  failed (license_part imp config changes) =
  license_check config
  && (failOnVulnerability_of config
      && nonempty (forbidden (invalidLicenseChanges_of imp config changes))
      || nonempty (unresolved (invalidLicenseChanges_of imp config changes))).
Proof.
  unfold license_part.
  destruct (license_check config); [| reflexivity].
  destruct (printLicensesBlock_trace
              (invalidLicenseChanges_of imp config changes)
              (failOnVulnerability_of config))
    as (i1 & i2 & i3 & h1 & h2 & H1 & H2 & H3 & ->).
  rewrite !failed_cons, !failed_app, (infos_not_failed _ H3).
  destruct (nonempty (forbidden _)), (nonempty (unresolved _)),
    (failOnVulnerability_of config);
    rewrite ?failed_cons, ?failed_app, ?failed_cons,
      ?(infos_not_failed _ H1), ?(infos_not_failed _ H2);
    reflexivity.
Qed.

Lemma failed_printScannedDependencies changes :
  failed (trace (printScannedDependencies imp changes)) = false.
Proof.
  destruct (printScannedDependencies_trace changes)
    as (infos & rejection & Hinfos & Hrej & ->).
  rewrite failed_cons, failed_app, (infos_not_failed _ Hinfos).
  destruct Hrej as [-> | (change & e & -> & _)]; reflexivity.
Qed.

Lemma failed_comment_part env config :
  failed (comment_part env config) =
  comment_summary_in_pr config && threw (commentPr env).
Proof.
  unfold comment_part.
  destruct (comment_summary_in_pr config); [| reflexivity].
  destruct (commentPr env) as [e | u]; [| reflexivity].
  destruct (on_error_sets_failed env e) as [msg ->]; reflexivity.
Qed.

(** The failure wiring of a run that got a change set. *)
Lemma run_failed env config changes :
  reaches env config (Some changes) ->
  failed (trace (run imp env)) =
    vulnerability_check config && failOnVulnerability_of config
      && nonempty (vulnerableChanges_of imp config changes)
    || license_check config
       && (failOnVulnerability_of config
           && nonempty (forbidden (invalidLicenseChanges_of imp config changes))
           || nonempty (unresolved (invalidLicenseChanges_of imp config changes)))
    || comment_summary_in_pr config && threw (commentPr env).
Proof.
  intros Hreach. rewrite (run_evaluates _ _ _ Hreach).
  rewrite !failed_app, failed_cons, !failed_app.
  rewrite failed_vulnerability_part, failed_license_part,
    failed_printScannedDependencies, failed_comment_part.
  cbn [pipeline_part failed existsb is_SetFailed orb].
  rewrite orb_false_r. apply orb_assoc.
Qed.

(** ** The events of each segment *)

Lemma in_infos t e :
  forallb is_Info t = true -> In e t -> exists msg, e = Info msg.
Proof.
  intros Ht He. rewrite forallb_forall in Ht. specialize (Ht e He).
  destruct e; try discriminate. eexists; reflexivity.
Qed.

Lemma vulnerability_part_events config changes e :
  In e (vulnerability_part imp config changes) ->
  vulnerability_check config = true /\
  (e = AddChangeVulnerabilitiesToSummary
         (vulnerableChanges_of imp config changes) (minSeverity_of config)
   \/ e = StartGroup "Vulnerabilities"
   \/ (exists msg, e = Info msg)
   \/ (nonempty (vulnerableChanges_of imp config changes) = true /\
       e = if failOnVulnerability_of config
           then SetFailed vulnerable_msg else Warning vulnerable_msg)).
Proof.
  unfold vulnerability_part.
  destruct (vulnerability_check config); [| intros []].
  destruct (printVulnerabilitiesBlock_trace
              (vulnerableChanges_of imp config changes)
              (minSeverity_of config) (failOnVulnerability_of config))
    as [infos [Hinfos ->]].
  { intros c Hc. apply vulnerableChanges_added in Hc.
    destruct Hc as [_ [vulns [-> _]]]; discriminate. }
  intros He; split; [reflexivity |].
  destruct He as [<- | [<- | He]]; [auto | auto |].
  apply in_app_or in He. destruct He as [He | [<- | []]].
  - right; right; left. exact (in_infos _ _ Hinfos He).
  - destruct (nonempty (vulnerableChanges_of imp config changes)).
    + right; right; right; split; reflexivity.
    + right; right; left; eexists; reflexivity.
Qed.

Lemma license_part_events config changes e :
  In e (license_part imp config changes) ->
  license_check config = true /\
  (e = AddLicensesToSummary (invalidLicenseChanges_of imp config changes)
         config
   \/ e = StartGroup "Licenses"
   \/ (exists msg, e = Info msg)
   \/ (exists msg, e = Warning msg)
   \/ (nonempty (forbidden (invalidLicenseChanges_of imp config changes))
         = true /\
       failOnVulnerability_of config = true /\
       e = SetFailed incompatible_msg)
   \/ (nonempty (unresolved (invalidLicenseChanges_of imp config changes))
         = true /\
       e = SetFailed unresolved_msg)).
Proof.
  unfold license_part.
  destruct (license_check config); [| intros []].
  destruct (printLicensesBlock_trace
              (invalidLicenseChanges_of imp config changes)
              (failOnVulnerability_of config))
    as (i1 & i2 & i3 & h1 & h2 & H1 & H2 & H3 & ->).
  intros He; split; [reflexivity |].
  destruct He as [<- | [<- | He]]; [auto | auto |].
  apply in_app_or in He. destruct He as [He | He].
  - destruct (nonempty (forbidden _)); [| destruct He].
    destruct He as [<- | He]; [right; right; left; eexists; reflexivity |].
    apply in_app_or in He. destruct He as [He | [<- | []]].
    + right; right; left. exact (in_infos _ _ H1 He).
    + destruct (failOnVulnerability_of config).
      * right; right; right; right; left; auto.
      * right; right; right; left; eexists; reflexivity.
  - apply in_app_or in He. destruct He as [He | He].
    + destruct (nonempty (unresolved _)); [| destruct He].
      destruct He as [<- | He];
        [right; right; right; left; eexists; reflexivity |].
      apply in_app_or in He. destruct He as [He | [<- | []]].
      * right; right; left. exact (in_infos _ _ H2 He).
      * right; right; right; right; right; auto.
    + right; right; left. exact (in_infos _ _ H3 He).
Qed.

Lemma printScannedDependencies_events changes e :
  In e (trace (printScannedDependencies imp changes)) ->
  e = StartGroup "Dependency Changes"
  \/ (exists msg, e = Info msg)
  \/ (exists change thrown,
        e = Rejected "Dependency Changes" thrown /\
        renderScannedDependency change = inl thrown).
Proof.
  destruct (printScannedDependencies_trace changes)
    as (infos & rejection & Hinfos & Hrej & ->).
  intros [<- | He]; [auto |].
  apply in_app_or in He. destruct He as [He | He].
  - right; left. exact (in_infos _ _ Hinfos He).
  - destruct Hrej as [-> | (change & thrown & -> & Hc)]; [destruct He |].
    destruct He as [<- | []]. right; right; exists change, thrown; auto.
Qed.

Lemma comment_part_events env config e :
  In e (comment_part env config) ->
  e = CommentPr \/ exists msg, e = SetFailed msg.
Proof.
  unfold comment_part.
  destruct (comment_summary_in_pr config); [| intros []].
  intros [<- | He]; [auto |].
  destruct (commentPr env) as [thrown | u]; [| destruct He].
  destruct (on_error_sets_failed env thrown) as [msg Hmsg].
  rewrite Hmsg in He. destruct He as [<- | []]. right; eexists; reflexivity.
Qed.

(** ** The events of a whole run *)



Lemma in_segments env config changes tail e :
  In e (pipeline_part imp config changes
        ++ vulnerability_part imp config changes
        ++ license_part imp config changes
        ++ AddScannedDependencies changes
           :: trace (printScannedDependencies imp changes)
        ++ comment_part env config ++ tail) ->
  In e (pipeline_part imp config changes)
  \/ In e (vulnerability_part imp config changes)
  \/ In e (license_part imp config changes)
  \/ e = AddScannedDependencies changes
  \/ In e (trace (printScannedDependencies imp changes))
  \/ In e (comment_part env config) \/ In e tail.
Proof.
  intros He.
  repeat (apply in_app_or in He; destruct He as [He | He]; auto).
  destruct He as [<- | He]; auto.
  repeat (apply in_app_or in He; destruct He as [He | He]; auto 10).
Qed.

Ltac break_events :=
  repeat match goal with
         | H : _ \/ _ |- _ => destruct H as [H | H]
         | H : _ /\ _ |- _ => destruct H
         | H : exists _, _ |- _ => destruct H
         end.

(** The events of a run that got a change set, segment by segment. *)
Lemma evaluation_events env config changes e :
  reaches env config (Some changes) ->
  In e (trace (run imp env)) ->
  (exists c, e = Called c)
  \/ e = AddSummaryToSummary (vulnerableChanges_of imp config changes)
           (invalidLicenseChanges_of imp config changes) config
  \/ (vulnerability_check config = true /\
      (e = AddChangeVulnerabilitiesToSummary
             (vulnerableChanges_of imp config changes) (minSeverity_of config)
       \/ e = StartGroup "Vulnerabilities"
       \/ (nonempty (vulnerableChanges_of imp config changes) = true /\
           e = if failOnVulnerability_of config
               then SetFailed vulnerable_msg else Warning vulnerable_msg)))
  \/ (license_check config = true /\
      (e = AddLicensesToSummary (invalidLicenseChanges_of imp config changes)
             config
       \/ e = StartGroup "Licenses"
       \/ (exists msg, e = Warning msg)
       \/ (nonempty (forbidden (invalidLicenseChanges_of imp config changes))
             = true /\
           failOnVulnerability_of config = true /\
           e = SetFailed incompatible_msg)
       \/ (nonempty (unresolved (invalidLicenseChanges_of imp config changes))
             = true /\
           e = SetFailed unresolved_msg)))
  \/ e = AddScannedDependencies changes
  \/ e = StartGroup "Dependency Changes"
  \/ (exists change thrown,
        e = Rejected "Dependency Changes" thrown /\
        renderScannedDependency change = inl thrown)
  \/ (exists msg, e = Info msg)
  \/ (comment_summary_in_pr config = true /\
      (e = CommentPr \/
       exists thrown msg, commentPr env = inl thrown /\ e = SetFailed msg))
  \/ e = SummaryWrite.
Proof.
  intros Hreach He. rewrite (run_evaluates env config changes Hreach) in He.
  apply in_segments in He.
  destruct He as [He | [He | [He | [He | [He | [He | [He | []]]]]]]].
  - unfold pipeline_part in He; simpl in He.
    destruct He as [<- | [<- | [<- | [<- | [<- | []]]]]]; eauto.
  - apply vulnerability_part_events in He.
    destruct He as [Hcheck [He | [He | [[msg He] | He]]]]; eauto 12.
  - apply license_part_events in He.
    destruct He as [Hcheck [He | [He | [[msg He] | He]]]]; eauto 12.
  - auto 12.
  - apply printScannedDependencies_events in He.
    destruct He as [He | [He | He]]; auto 12.
  - do 8 right; left. unfold comment_part in He.
    destruct (comment_summary_in_pr config); [| destruct He].
    split; [reflexivity |]. destruct He as [<- | He]; [auto |].
    destruct (commentPr env) as [thrown | u]; [| destruct He].
    destruct (on_error_sets_failed env thrown) as [msg Hmsg].
    rewrite Hmsg in He. destruct He as [<- | []]. right; eauto.
  - subst e. auto 12.
Qed.

(** Every event of a run is a log line, a recorded call, the final
    write, the rejection of the dependency listing by a change of
    unexpected type, or a summary call carrying the values the
    pipeline computed. *)
Lemma run_events env e :
  In e (trace (run imp env)) ->
  (exists msg, e = SetFailed msg) \/ (exists msg, e = Info msg)
  \/ (exists msg, e = Warning msg) \/ (exists title, e = StartGroup title)
  \/ (exists c, e = Called c) \/ e = CommentPr \/ e = SummaryWrite
  \/ (exists change thrown,
        e = Rejected "Dependency Changes" thrown /\
        renderScannedDependency change = inl thrown)
  \/ (exists config changes,
        e = AddSummaryToSummary (vulnerableChanges_of imp config changes)
              (invalidLicenseChanges_of imp config changes) config
        \/ e = AddChangeVulnerabilitiesToSummary
                 (vulnerableChanges_of imp config changes)
                 (minSeverity_of config)
        \/ e = AddLicensesToSummary
                 (invalidLicenseChanges_of imp config changes) config
        \/ e = AddScannedDependencies changes).
Proof.
  destruct (run_cases env) as [[thrown Hearly] | [config [[changes |] Hreach]]].
  - destruct (run_catches env thrown Hearly) as [msg ->].
    intros [<- | [<- | []]]; eauto 10.
  - intros He. apply (evaluation_events env config changes e Hreach) in He.
    break_events; subst; eauto 12;
      try (do 8 right; exists config, changes; tauto).
    destruct (failOnVulnerability_of config); eauto 10.
  - rewrite (run_skips env config Hreach).
    intros [<- | [<- | []]]; eauto 10.
Qed.

Lemma reaches_no_early_error env config changes :
  reaches env config changes -> early_error env = None.
Proof.
  intros [Hc [refs [Hr Hd]]]. unfold early_error.
  rewrite Hc, Hr, Hd; reflexivity.
Qed.

Lemma reaches_unique env config config' changes changes' :
  reaches env config changes -> reaches env config' changes' ->
  config = config' /\ changes = changes'.
Proof.
  intros [Hc [refs [Hr Hd]]] [Hc' [refs' [Hr' Hd']]].
  assert (config = config') by congruence. subst config'.
  assert (refs = refs') by congruence. subst refs'.
  split; [reflexivity | congruence].
Qed.

Lemma nonempty_true {A} (l : list A) : nonempty l = true <-> l <> [].
Proof.
  unfold nonempty; destruct l; cbn; split; intros H;
    try reflexivity; try discriminate; try (exfalso; apply H; reflexivity).
Qed.

Lemma failOnVulnerability_true config :
  failOnVulnerability_of config = true <-> fail_on_severity config <> none.
Proof.
  unfold failOnVulnerability_of.
  destruct (fail_on_severity config); split; congruence.
Qed.

Lemma threw_true {A} (r : Thrown + A) :
  threw r = true <-> exists e, r = inl e.
Proof.
  destruct r as [e | a]; simpl; split; try congruence; eauto.
  intros [e He]; discriminate.
Qed.

(** * The claims *)

(** C1 (as amended).  The run is marked failed if and only if a
    collaborator threw before a change set was obtained, or a change
    set was obtained and: the vulnerability check is enabled,
    fail_on_severity is not none and the vulnerable changes are
    non-empty; or the license check is enabled and either the
    unresolved bucket is non-empty, or fail_on_severity is not none and
    the forbidden bucket is non-empty; or posting the summary comment
    threw.  In every other case, the absent change set included, it
    passes. *)
Theorem run_failure_classification env :
  failed (trace (run imp env)) = true <->
    (exists thrown, early_error env = Some thrown)
    \/ (exists config changes,
          reaches env config (Some changes) /\
          ((vulnerability_check config = true /\
            fail_on_severity config <> none /\
            vulnerableChanges_of imp config changes <> [])
           \/ (license_check config = true /\
               ((fail_on_severity config <> none /\
                 forbidden (invalidLicenseChanges_of imp config changes) <> [])
                \/ unresolved (invalidLicenseChanges_of imp config changes)
                     <> []))
           \/ (comment_summary_in_pr config = true /\
               exists thrown, commentPr env = inl thrown))).
Proof.
  destruct (run_cases env) as [[thrown Hearly] | [config [[changes |] Hreach]]].
  - destruct (run_catches env thrown Hearly) as [msg ->].
    split; [intros _; left; eauto | reflexivity].
  - rewrite (run_failed env config changes Hreach).
    rewrite !orb_true_iff, !andb_true_iff, !orb_true_iff, !andb_true_iff.
    rewrite !nonempty_true, failOnVulnerability_true, threw_true.
    split.
    + intros H. right. exists config, changes. tauto.
    + intros [[thrown Hearly] | (config' & changes' & Hreach' & H)].
      * rewrite (reaches_no_early_error _ _ _ Hreach) in Hearly.
        discriminate.
      * destruct (reaches_unique _ _ _ _ _ Hreach Hreach') as [<- [= <-]].
        tauto.
  - rewrite (run_skips env config Hreach).
    split; [discriminate |].
    intros [[thrown Hearly] | (config' & changes' & Hreach' & _)].
    + rewrite (reaches_no_early_error _ _ _ Hreach) in Hearly. discriminate.
    + destruct (reaches_unique _ _ _ _ _ Hreach Hreach') as [_ [=]].
Qed.

(** C2 (as amended).  When [compare] returns no change set the run
    only logs that the review is skipped and writes the summary: no
    filter, no license classification, no error.  A change sequence,
    the empty one included, does not stop there: the run goes on to
    call the filters and the license classification on it. *)
Theorem change_set_guard env config changes :
  reaches env config changes ->
  match changes with
  | None => trace (run imp env) = [Info skip_msg; SummaryWrite]
  | Some changes =>
      exists rest,
        trace (run imp env) =
          Called (call_filterChangesByScopes (fail_on_scopes config) changes)
          :: Called (call_filterAllowedAdvisories (allow_ghsas config)
                       (scopedChanges_of imp config changes))
          :: Called (call_filterChangesBySeverity (minSeverity_of config)
                       (filteredChanges_of imp config changes))
          :: Called (call_getInvalidLicenseChanges
                       (filteredChanges_of imp config changes)
                       (allow_licenses config) (deny_licenses config))
          :: rest
  end.
Proof.
  intros Hreach. destruct changes as [changes |].
  - rewrite (run_evaluates env config changes Hreach).
    eexists; reflexivity.
  - exact (run_skips env config Hreach).
Qed.


(** C4.  A run that got a change set calls the scope filter on the
    changes, the advisory allowlist filter on its result, the severity
    filter on that, and reports as vulnerable changes the severity
    filter's result restricted to added changes (the restriction also
    asks for a non-empty vulnerability list, which changes nothing
    when the severity filter keeps only changes that have one); the
    license classification is called on the result of the allowlist
    filter, not on that of the severity filter. *)
Theorem pipeline_composition env config changes :
  reaches env config (Some changes) ->
  let scoped := filterChangesByScopes imp (fail_on_scopes config) changes in
  let filtered := filterAllowedAdvisories imp (allow_ghsas config) scoped in
  let severe :=
    filterChangesBySeverity imp (minSeverity_of config) filtered in
  let vulnerable := filter added_with_vulnerabilities severe in
  let invalid :=
    getInvalidLicenseChanges imp filtered (allow_licenses config)
      (deny_licenses config) in
  (exists rest,
     trace (run imp env) =
       Called (call_filterChangesByScopes (fail_on_scopes config) changes)
       :: Called (call_filterAllowedAdvisories (allow_ghsas config) scoped)
       :: Called (call_filterChangesBySeverity (minSeverity_of config)
                    filtered)
       :: Called (call_getInvalidLicenseChanges filtered
                    (allow_licenses config) (deny_licenses config))
       :: AddSummaryToSummary vulnerable invalid config
       :: rest) /\
  ((forall c, In c severe ->
      exists v vs, vulnerabilities c = Some (v :: vs)) ->
   vulnerable = filter (fun c => change_type c =? "added")%string severe).
Proof.
  intros Hreach; cbv zeta; split.
  - rewrite (run_evaluates env config changes Hreach).
    eexists; reflexivity.
  - intros Hsevere. apply filter_ext_in. intros c Hc.
    destruct (Hsevere c Hc) as (v & vs & Hv).
    unfold added_with_vulnerabilities. rewrite Hv. apply andb_true_r.
Qed.

(** C5.  With fail_on_severity none the severity filter is still
    called, with minimum severity low, and the vulnerable changes do
    not mark the run failed: the run is marked failed exactly as if
    there were none.  The vulnerabilities block marks a run failed
    only when it is given a non-empty sequence and fail_on_severity
    is not none. *)
Theorem fail_on_severity_none_is_informational env config changes :
  reaches env config (Some changes) ->
  (fail_on_severity config = none ->
   In (Called (call_filterChangesBySeverity low
                 (filteredChanges_of imp config changes)))
      (trace (run imp env)) /\
   failed (trace (run imp env)) =
     license_check config
     && nonempty (unresolved (invalidLicenseChanges_of imp config changes))
     || comment_summary_in_pr config && threw (commentPr env)) /\
  (failed (trace (printVulnerabilitiesBlock
                    (vulnerableChanges_of imp config changes)
                    (minSeverity_of config)
                    (failOnVulnerability_of config))) = true ->
   fail_on_severity config <> none /\
   vulnerableChanges_of imp config changes <> []).
Proof.
  intros Hreach; split.
  - intros Hnone. split.
    + rewrite (run_evaluates env config changes Hreach).
      unfold pipeline_part, minSeverity_of. rewrite Hnone.
      simpl. auto.
    + rewrite (run_failed env config changes Hreach).
      unfold failOnVulnerability_of. rewrite Hnone.
      rewrite andb_false_r. reflexivity.
  - intros Hfailed.
    destruct (printVulnerabilitiesBlock_trace
                (vulnerableChanges_of imp config changes)
                (minSeverity_of config) (failOnVulnerability_of config))
      as [infos [Hinfos Htrace]].
    { intros c Hc. apply vulnerableChanges_added in Hc.
      destruct Hc as [_ [vulns [-> _]]]; discriminate. }
    rewrite Htrace in Hfailed.
    rewrite failed_cons, failed_app, (infos_not_failed _ Hinfos) in Hfailed.
    split; [apply failOnVulnerability_true | apply nonempty_true];
      destruct (nonempty _), (failOnVulnerability_of config);
      try discriminate; reflexivity.
Qed.

(** C6.  A change whose change_type is removed is never among the
    vulnerable changes, whatever its vulnerabilities: neither in the
    value the pipeline computes nor in what any run reports to the
    summary. *)
Theorem removed_change_never_vulnerable env config changes c :
  change_type c = "removed"%string ->
  ~ In c (vulnerableChanges_of imp config changes) /\
  (forall vc ilc cfg,
     In (AddSummaryToSummary vc ilc cfg) (trace (run imp env)) ->
     ~ In c vc) /\
  (forall vc minSeverity,
     In (AddChangeVulnerabilitiesToSummary vc minSeverity)
        (trace (run imp env)) ->
     ~ In c vc).
Proof.
  intros Hremoved.
  assert (Hnot : forall cfg cs, ~ In c (vulnerableChanges_of imp cfg cs)).
  { intros cfg cs Hin. apply vulnerableChanges_added in Hin.
    destruct Hin as [Hadded _]. congruence. }
  split; [apply Hnot | split].
  - intros vc ilc cfg He. apply run_events in He.
    break_events; try discriminate.
    match goal with
    | H : AddSummaryToSummary _ _ _ = _ |- _ => injection H as -> _ _
    end.
    apply Hnot.
  - intros vc minSeverity He. apply run_events in He.
    break_events; try discriminate.
    match goal with
    | H : AddChangeVulnerabilitiesToSummary _ _ = _ |- _ =>
        injection H as -> _
    end.
    apply Hnot.
Qed.

(** C7.  A run that got a change set always calls the severity filter
    and the license classification and hands both results to the
    summary, whatever vulnerability_check and license_check are; a
    disabled check only removes its own report (its summary section
    and its log group) from the run. *)
Theorem both_results_always_computed env config changes :
  reaches env config (Some changes) ->
  let vulnerable := vulnerableChanges_of imp config changes in
  let invalid := invalidLicenseChanges_of imp config changes in
  (In (Called (call_filterChangesBySeverity (minSeverity_of config)
                 (filteredChanges_of imp config changes)))
      (trace (run imp env)) /\
   In (Called (call_getInvalidLicenseChanges
                 (filteredChanges_of imp config changes)
                 (allow_licenses config) (deny_licenses config)))
      (trace (run imp env)) /\
   In (AddSummaryToSummary vulnerable invalid config)
      (trace (run imp env))) /\
  (In (AddChangeVulnerabilitiesToSummary vulnerable (minSeverity_of config))
      (trace (run imp env))
   <-> vulnerability_check config = true) /\
  (In (StartGroup "Vulnerabilities") (trace (run imp env))
   <-> vulnerability_check config = true) /\
  (In (AddLicensesToSummary invalid config) (trace (run imp env))
   <-> license_check config = true) /\
  (In (StartGroup "Licenses") (trace (run imp env))
   <-> license_check config = true).
Proof.
  intros Hreach; cbv zeta.
  pose proof (evaluation_events env config changes) as Hev.
  assert (Hfov : forall e : Event,
            e = (if failOnVulnerability_of config
                 then SetFailed vulnerable_msg else Warning vulnerable_msg) ->
            (exists msg, e = SetFailed msg) \/ (exists msg, e = Warning msg))
    by (intros e ->; destruct (failOnVulnerability_of config); eauto).
  split; [| repeat split; intros H].
  - rewrite (run_evaluates env config changes Hreach).
    unfold pipeline_part; simpl; auto 10.
  - apply (Hev _ Hreach) in H.
    break_events; try discriminate; assumption.
  - rewrite (run_evaluates env config changes Hreach).
    apply in_or_app; right. apply in_or_app; left.
    unfold vulnerability_part. rewrite H. left; reflexivity.
  - apply (Hev _ Hreach) in H.
    break_events; try discriminate; assumption.
  - rewrite (run_evaluates env config changes Hreach).
    apply in_or_app; right. apply in_or_app; left.
    unfold vulnerability_part. rewrite H. right.
    unfold printVulnerabilitiesBlock. rewrite group_trace. left; reflexivity.
  - apply (Hev _ Hreach) in H.
    break_events; try discriminate; try assumption.
    match goal with
    | H' : _ = (if _ then _ else _) |- _ =>
        apply Hfov in H'; break_events; discriminate
    end.
  - rewrite (run_evaluates env config changes Hreach).
    apply in_or_app; right. apply in_or_app; right. apply in_or_app; left.
    unfold license_part. rewrite H. left; reflexivity.
  - apply (Hev _ Hreach) in H.
    break_events; try discriminate; try assumption.
    match goal with
    | H' : _ = (if _ then _ else _) |- _ =>
        apply Hfov in H'; break_events; discriminate
    end.
  - rewrite (run_evaluates env config changes Hreach).
    apply in_or_app; right. apply in_or_app; right. apply in_or_app; left.
    unfold license_part. rewrite H. right.
    unfold printLicensesBlock. rewrite group_trace. left; reflexivity.
Qed.



End Properties.

(** ** The license classes of the resolver *)

Section LicenseClasses.

Import SpecModel.

Variable evaluable : string -> bool.
Variables allow deny : list string.



End LicenseClasses.

(** * The claims on the samples *)

Lemma sample_reaches cfg changes comment :
  reaches (Sample.env cfg changes comment) cfg changes.
Proof.
  split; [reflexivity |].
  exists ("main", "feature"); split; reflexivity.
Qed.

(** An added change with a high vulnerability under fail_on_severity
    moderate: the run is marked failed. *)
Lemma run_failure_classification_witness :
  reaches (Sample.env Sample.config_moderate (Some [Sample.added_high])
             (inr tt))
          Sample.config_moderate (Some [Sample.added_high]) /\
  failed (trace (run SpecModel.imports
                   (Sample.env Sample.config_moderate
                      (Some [Sample.added_high]) (inr tt)))) = true.
Proof.
  split; [apply sample_reaches |].
  apply (run_failure_classification SpecModel.imports).
  right. exists Sample.config_moderate, [Sample.added_high].
  split; [apply sample_reaches |].
  left. repeat split; discriminate.
Defined.

(** C1, as the spec states it, fails on [run]:
    - with the vulnerability check off, a vulnerable change under
      fail_on_severity low does not mark the run failed;
    - with fail_on_severity none, a denied license only warns;
    - with no license list configured, an unresolved license marks the
      run failed;
    - with the license check off, a denied license does not mark the
      run failed;
    - with nothing to report, a throwing summary comment marks the run
      failed. *)
Lemma overall_fail_counterexample :
  (failed (trace (run SpecModel.imports
                    (Sample.env Sample.config_no_vulnerability_check
                       (Some [Sample.added_high]) (inr tt)))) = false /\
   SpecModel.overall_fail Sample.config_no_vulnerability_check
     (vulnerableChanges_of SpecModel.imports
        Sample.config_no_vulnerability_check [Sample.added_high])
     (invalidLicenseChanges_of SpecModel.imports
        Sample.config_no_vulnerability_check [Sample.added_high]) = true) /\
  (failed (trace (run SpecModel.imports
                    (Sample.env Sample.config_none_deny_gpl
                       (Some [Sample.added_gpl]) (inr tt)))) = false /\
   SpecModel.overall_fail Sample.config_none_deny_gpl
     (vulnerableChanges_of SpecModel.imports
        Sample.config_none_deny_gpl [Sample.added_gpl])
     (invalidLicenseChanges_of SpecModel.imports
        Sample.config_none_deny_gpl [Sample.added_gpl]) = true) /\
  (failed (trace (run SpecModel.imports
                    (Sample.env Sample.config_no_license_policy
                       (Some [Sample.added_compound]) (inr tt)))) = true /\
   SpecModel.overall_fail Sample.config_no_license_policy
     (vulnerableChanges_of SpecModel.imports
        Sample.config_no_license_policy [Sample.added_compound])
     (invalidLicenseChanges_of SpecModel.imports
        Sample.config_no_license_policy [Sample.added_compound]) = false) /\
  (failed (trace (run SpecModel.imports
                    (Sample.env Sample.config_no_license_check
                       (Some [Sample.added_gpl]) (inr tt)))) = false /\
   SpecModel.overall_fail Sample.config_no_license_check
     (vulnerableChanges_of SpecModel.imports
        Sample.config_no_license_check [Sample.added_gpl])
     (invalidLicenseChanges_of SpecModel.imports
        Sample.config_no_license_check [Sample.added_gpl]) = true) /\
  (failed (trace (run SpecModel.imports
                    (Sample.env Sample.config_comment
                       (Some [Sample.added_gpl])
                       (inl (Error "Resource not accessible by integration")))))
   = true /\
   SpecModel.overall_fail Sample.config_comment
     (vulnerableChanges_of SpecModel.imports
        Sample.config_comment [Sample.added_gpl])
     (invalidLicenseChanges_of SpecModel.imports
        Sample.config_comment [Sample.added_gpl]) = false).
Proof. repeat split; vm_compute; reflexivity. Qed.

(** C2, as the spec states it, fails on [run]: for the empty change
    sequence the run does not stop at the guard; it calls the filters
    and the license classification. *)
Lemma empty_change_set_counterexample :
  trace (run SpecModel.imports
           (Sample.env Sample.config_none (Some []) (inr tt)))
  <> [Info skip_msg; SummaryWrite] /\
  In (Called (call_filterChangesByScopes [runtime; development] []))
     (trace (run SpecModel.imports
               (Sample.env Sample.config_none (Some []) (inr tt)))) /\
  In (Called (call_getInvalidLicenseChanges [] [] []))
     (trace (run SpecModel.imports
               (Sample.env Sample.config_none (Some []) (inr tt)))).
Proof.
  split; [vm_compute; discriminate |].
  split; vm_compute; auto.
Qed.

(** The empty change sequence is handed to the filters. *)
Lemma change_set_guard_witness :
  reaches (Sample.env Sample.config_none (Some []) (inr tt))
          Sample.config_none (Some []) /\
  exists rest,
    trace (run SpecModel.imports
             (Sample.env Sample.config_none (Some []) (inr tt))) =
      Called (call_filterChangesByScopes [runtime; development] [])
      :: Called (call_filterAllowedAdvisories [] [])
      :: Called (call_filterChangesBySeverity low [])
      :: Called (call_getInvalidLicenseChanges [] [] [])
      :: rest.
Proof.
  split; [apply sample_reaches |].
  exact (change_set_guard SpecModel.imports _ _ _
           (sample_reaches Sample.config_none (Some []) (inr tt))).
Defined.

(** Of an added and a removed vulnerable change, the summary receives
    the added one; the license classification receives both.  The
    severity filter of the model keeps only changes with a
    vulnerability, so the restriction is the one to added changes. *)
Lemma pipeline_composition_witness :
  reaches (Sample.env Sample.config_moderate
             (Some [Sample.added_high; Sample.removed_critical]) (inr tt))
          Sample.config_moderate
          (Some [Sample.added_high; Sample.removed_critical]) /\
  (exists rest,
     trace (run SpecModel.imports
              (Sample.env Sample.config_moderate
                 (Some [Sample.added_high; Sample.removed_critical])
                 (inr tt))) =
       Called (call_filterChangesByScopes [runtime; development]
                 [Sample.added_high; Sample.removed_critical])
       :: Called (call_filterAllowedAdvisories []
                    [Sample.added_high; Sample.removed_critical])
       :: Called (call_filterChangesBySeverity moderate
                    [Sample.added_high; Sample.removed_critical])
       :: Called (call_getInvalidLicenseChanges
                    [Sample.added_high; Sample.removed_critical] [] [])
       :: AddSummaryToSummary [Sample.added_high] (mkInvalid [] [] [])
            Sample.config_moderate
       :: rest) /\
  [Sample.added_high] =
    filter (fun c => change_type c =? "added")
      (SpecModel.filterBySeverity moderate
         [Sample.added_high; Sample.removed_critical]).
Proof.
  pose proof (pipeline_composition SpecModel.imports _ _ _
                (sample_reaches Sample.config_moderate
                   (Some [Sample.added_high; Sample.removed_critical])
                   (inr tt))) as [Htrace Hadded].
  split; [apply sample_reaches |].
  split; [exact Htrace |].
  apply Hadded.
  intros c [<- | [<- | []]]; do 2 eexists; reflexivity.
Defined.

(** Under fail_on_severity none a high vulnerability is looked for at
    severity low and the run is not marked failed. *)
Lemma fail_on_severity_none_is_informational_witness :
  reaches (Sample.env Sample.config_none (Some [Sample.added_high]) (inr tt))
          Sample.config_none (Some [Sample.added_high]) /\
  In (Called (call_filterChangesBySeverity low [Sample.added_high]))
     (trace (run SpecModel.imports
               (Sample.env Sample.config_none (Some [Sample.added_high])
                  (inr tt)))) /\
  failed (trace (run SpecModel.imports
                   (Sample.env Sample.config_none (Some [Sample.added_high])
                      (inr tt)))) = false.
Proof.
  split; [apply sample_reaches |].
  exact (proj1 (fail_on_severity_none_is_informational SpecModel.imports _ _ _
                  (sample_reaches Sample.config_none
                     (Some [Sample.added_high]) (inr tt)))
               eq_refl).
Defined.

(** A removed change with a critical vulnerability is not vulnerable. *)
Lemma removed_change_never_vulnerable_witness :
  change_type Sample.removed_critical = "removed" /\
  ~ In Sample.removed_critical
       (vulnerableChanges_of SpecModel.imports Sample.config_moderate
          [Sample.added_high; Sample.removed_critical]).
Proof.
  split; [reflexivity |].
  exact (proj1 (removed_change_never_vulnerable SpecModel.imports
                  (Sample.env Sample.config_moderate None (inr tt))
                  Sample.config_moderate
                  [Sample.added_high; Sample.removed_critical]
                  Sample.removed_critical eq_refl)).
Defined.

(** With both checks off the summary still receives both results. *)
Lemma both_results_always_computed_witness :
  reaches (Sample.env Sample.config_checks_off
             (Some [Sample.added_high; Sample.added_compound]) (inr tt))
          Sample.config_checks_off
          (Some [Sample.added_high; Sample.added_compound]) /\
  In (AddSummaryToSummary [Sample.added_high]
        (mkInvalid [] [Sample.added_compound] [])
        Sample.config_checks_off)
     (trace (run SpecModel.imports
               (Sample.env Sample.config_checks_off
                  (Some [Sample.added_high; Sample.added_compound])
                  (inr tt)))).
Proof.
  split; [apply sample_reaches |].
  exact (proj2 (proj2 (proj1
           (both_results_always_computed SpecModel.imports _ _ _
              (sample_reaches Sample.config_checks_off
                 (Some [Sample.added_high; Sample.added_compound])
                 (inr tt)))))).
Defined.





(** * Further properties of main.ts *)

Section Reports.

Local Open Scope list_scope.

Variable imp : Imports.

(** ** Loops that return *)

Lemma for_of_flat {A} (xs : list A) (body : A -> M unit) :
  (forall x, In x xs -> outcome (body x) = inr tt) ->
  trace (for_of xs body) = flat_map (fun x => trace (body x)) xs.
Proof.
  induction xs as [| x xs IH]; intros Hbody; simpl; [reflexivity |].
  rewrite (bind_returns _ _ tt) by (apply Hbody; left; reflexivity).
  simpl. rewrite IH; [reflexivity |].
  intros y Hy; apply Hbody; right; exact Hy.
Qed.

Lemma flat_map_agree {A B} (f g : A -> list B) (xs : list A) :
  (forall x, In x xs -> f x = g x) -> flat_map f xs = flat_map g xs.
Proof.
  induction xs as [| x xs IH]; intros H; simpl; [reflexivity |].
  rewrite (H x) by (left; reflexivity).
  rewrite IH by (intros y Hy; apply H; right; exact Hy). reflexivity.
Qed.

Lemma flat_map_singleton {A B} (f : A -> B) (xs : list A) :
  flat_map (fun x => [f x]) xs = map f xs.
Proof. induction xs as [| x xs IH]; simpl; [| rewrite IH]; reflexivity. Qed.

Lemma length_flat_map {A B} (f : A -> list B) (xs : list A) :
  List.length (flat_map f xs) = list_sum (map (fun x => List.length (f x)) xs).
Proof.
  induction xs as [| x xs IH]; simpl; [reflexivity |].
  rewrite length_app, IH; reflexivity.
Qed.

Lemma printChangeVulnerabilities_lines change vulns :
  vulnerabilities change = Some vulns ->
  trace (printChangeVulnerabilities change) =
  flat_map (vulnerability_lines change) vulns.
Proof.
  intros Hv. unfold printChangeVulnerabilities. rewrite Hv.
  rewrite for_of_flat by (intros vuln _; reflexivity). reflexivity.
Qed.

Lemma printChangeVulnerabilities_length change :
  vulnerabilities change <> None ->
  List.length (trace (printChangeVulnerabilities change)) =
  2 * vulnerability_count change.
Proof.
  unfold vulnerability_count.
  destruct (vulnerabilities change) as [vulns |] eqn:Hv; [intros _ | congruence].
  rewrite (printChangeVulnerabilities_lines _ _ Hv), length_flat_map.
  clear Hv. induction vulns as [| v vulns IH]; simpl in *; [reflexivity |].
  rewrite IH. rewrite Nat.add_0_r. simpl.
  rewrite <- plus_n_Sm. reflexivity.
Qed.

(** ** The vulnerabilities block *)

Lemma printVulnerabilities_loop addedChanges :
  (forall c, In c addedChanges -> vulnerabilities c <> None) ->
  trace (for_of addedChanges printChangeVulnerabilities) =
  flat_map (fun c =>
              flat_map (vulnerability_lines c)
                (match vulnerabilities c with
                 | Some vulns => vulns
                 | None => []
                 end))
           addedChanges.
Proof.
  intros Hdef.
  rewrite for_of_flat
    by (intros c Hc; apply printChangeVulnerabilities_returns, Hdef, Hc).
  apply flat_map_agree. intros c Hc.
  destruct (vulnerabilities c) as [vulns |] eqn:Hv;
    [| destruct (Hdef c Hc Hv)].
  apply (printChangeVulnerabilities_lines _ _ Hv).
Qed.

Lemma printVulnerabilitiesBlock_exact addedChanges minSeverity fov :
  (forall c, In c addedChanges -> vulnerabilities c <> None) ->
  trace (printVulnerabilitiesBlock addedChanges minSeverity fov) =
    StartGroup "Vulnerabilities"
    :: flat_map (fun c =>
                   flat_map (vulnerability_lines c)
                     (match vulnerabilities c with
                      | Some vulns => vulns
                      | None => []
                      end))
                addedChanges
    ++ [if nonempty addedChanges
        then (if fov then SetFailed vulnerable_msg
              else Warning vulnerable_msg)
        else all_clear_line minSeverity].
Proof.
  intros Hdef.
  pose proof (printVulnerabilities_loop addedChanges Hdef) as Hloop.
  assert (Hr : outcome (for_of addedChanges printChangeVulnerabilities)
               = inr tt)
    by (apply for_of_returns; intros c Hc;
        apply printChangeVulnerabilities_returns, Hdef, Hc).
  unfold printVulnerabilitiesBlock, nonempty, all_clear_line.
  rewrite group_trace.
  destruct addedChanges as [| c cs]; [reflexivity |].
  rewrite <- Hloop.
  destruct (for_of (c :: cs) printChangeVulnerabilities) as [t r].
  simpl in Hr; subst r.
  destruct fov; cbn; rewrite app_nil_r, <- app_assoc; reflexivity.
Qed.

(** X1.  Given changes that all have their list of vulnerabilities,
    [printVulnerabilitiesBlock] opens its group, logs two lines per
    vulnerability, change by change and vulnerability by vulnerability
    in the order given, and ends with exactly one verdict line: a
    failure or a warning when there is a change, the all-clear line
    when there is none.  It logs [2 + 2n] events for [n]
    vulnerabilities. *)
Theorem vulnerabilities_block_report addedChanges minSeverity fov :
  (forall c, In c addedChanges -> vulnerabilities c <> None) ->
  trace (printVulnerabilitiesBlock addedChanges minSeverity fov) =
    StartGroup "Vulnerabilities"
    :: flat_map (fun c =>
                   flat_map (vulnerability_lines c)
                     (match vulnerabilities c with
                      | Some vulns => vulns
                      | None => []
                      end))
                addedChanges
    ++ [if nonempty addedChanges
        then (if fov then SetFailed vulnerable_msg
              else Warning vulnerable_msg)
        else all_clear_line minSeverity] /\
  List.length (trace (printVulnerabilitiesBlock addedChanges minSeverity fov))
  = 2 + 2 * list_sum (map vulnerability_count addedChanges).
Proof.
  intros Hdef. split; [apply printVulnerabilitiesBlock_exact, Hdef |].
  rewrite (printVulnerabilitiesBlock_exact _ _ _ Hdef).
  rewrite <- (printVulnerabilities_loop _ Hdef).
  cbn [List.length]. rewrite length_app. cbn [List.length].
  rewrite for_of_flat
    by (intros c Hc; apply printChangeVulnerabilities_returns, Hdef, Hc).
  rewrite length_flat_map.
  assert (Hsum : list_sum (map (fun c => List.length
                                  (trace (printChangeVulnerabilities c)))
                               addedChanges) =
                 2 * list_sum (map vulnerability_count addedChanges)).
  { induction addedChanges as [| c cs IH]; [reflexivity |].
    simpl map. simpl list_sum.
    rewrite printChangeVulnerabilities_length
      by (apply Hdef; left; reflexivity).
    rewrite IH by (intros c' Hc'; apply Hdef; right; exact Hc'). lia. }
  rewrite Hsum. lia.
Qed.

(** X2.  Given a change without a list of vulnerabilities,
    [printVulnerabilitiesBlock] logs lines only, its callback is
    rejected and no verdict is reached: neither failure nor warning,
    whatever [failOnVulnerability] is. *)
Theorem undefined_vulnerabilities_lose_the_verdict
    addedChanges minSeverity fov change :
  In change addedChanges ->
  vulnerabilities change = None ->
  exists infos thrown,
    forallb is_Info infos = true /\
    trace (printVulnerabilitiesBlock addedChanges minSeverity fov) =
      StartGroup "Vulnerabilities" :: infos
      ++ [Rejected "Vulnerabilities" thrown].
Proof.
  intros Hin Hnone.
  assert (Hthrows : exists e,
             outcome (for_of addedChanges printChangeVulnerabilities) = inl e).
  { apply (for_of_throws_at _ _ change Hin).
    unfold printChangeVulnerabilities. rewrite Hnone.
    eexists; reflexivity. }
  destruct Hthrows as [e He].
  pose proof (infos_for_of addedChanges printChangeVulnerabilities
                printChangeVulnerabilities_infos) as Hinfos.
  unfold printVulnerabilitiesBlock. rewrite group_trace.
  destruct addedChanges as [| c cs]; [destruct Hin |].
  destruct (for_of (c :: cs) printChangeVulnerabilities) as [t r].
  simpl in He, Hinfos; subst r.
  exists t, e. split; [exact Hinfos | reflexivity].
Qed.

(** ** The licenses block *)

Lemma printLicensesError_lines changes :
  trace (printLicensesError changes) = map license_line changes.
Proof.
  unfold printLicensesError.
  rewrite for_of_flat by (intros change _; reflexivity).
  apply (flat_map_singleton license_line).
Qed.

Lemma printNullLicenses_lines changes :
  trace (printNullLicenses changes) =
  if nonempty changes
  then Info unlicensed_header :: map unlicensed_line changes
  else [].
Proof.
  unfold printNullLicenses, nonempty.
  destruct changes as [| c cs]; [reflexivity |].
  cbn [List.length Nat.eqb Nat.ltb Nat.leb].
  rewrite (bind_returns _ _ tt) by reflexivity.
  rewrite for_of_flat by (intros change _; reflexivity).
  cbn [trace fst core.info emit app].
  change (Info unlicensed_header :: flat_map (fun x => [unlicensed_line x])
                                             (c :: cs)
          = Info unlicensed_header :: map unlicensed_line (c :: cs)).
  rewrite (flat_map_singleton unlicensed_line). reflexivity.
Qed.

Lemma printLicensesBlock_exact invalid fov :
  trace (printLicensesBlock invalid fov) =
    StartGroup "Licenses"
    :: (if nonempty (forbidden invalid)
        then Info incompatible_header
             :: map license_line (forbidden invalid)
             ++ [if fov then SetFailed incompatible_msg
                 else Warning incompatible_msg]
        else [])
    ++ (if nonempty (unresolved invalid)
        then Warning unresolved_header
             :: map license_line (unresolved invalid)
             ++ [SetFailed unresolved_msg]
        else [])
    ++ (if nonempty (unlicensed invalid)
        then Info unlicensed_header
             :: map unlicensed_line (unlicensed invalid)
        else []).
Proof.
  rewrite <- printNullLicenses_lines, <- !printLicensesError_lines.
  unfold printLicensesBlock, nonempty. rewrite group_trace.
  pose proof (printLicensesError_returns (forbidden invalid)) as Hf.
  pose proof (printLicensesError_returns (unresolved invalid)) as Hu.
  pose proof (printNullLicenses_returns (unlicensed invalid)) as Hn.
  destruct (printLicensesError (forbidden invalid)) as [tf rf].
  destruct (printLicensesError (unresolved invalid)) as [tu ru].
  destruct (printNullLicenses (unlicensed invalid)) as [tn rn].
  simpl in Hf, Hu, Hn; subst rf ru rn.
  destruct (0 <? List.length (forbidden invalid))%nat,
           (0 <? List.length (unresolved invalid))%nat,
           fov; cbn; rewrite ?app_nil_r;
    repeat (rewrite <- app_assoc; cbn [app]); reflexivity.
Qed.

(** X3.  [printLicensesBlock] reports a bucket only when it is
    non-empty, forbidden first, then unresolved, then unlicensed: a
    header, one line per change in the order of the bucket, and for
    forbidden and unresolved a verdict.  With three empty buckets it
    logs nothing after opening its group. *)
Theorem licenses_block_report invalid fov :
  trace (printLicensesBlock invalid fov) =
    StartGroup "Licenses"
    :: (if nonempty (forbidden invalid)
        then Info incompatible_header
             :: map license_line (forbidden invalid)
             ++ [if fov then SetFailed incompatible_msg
                 else Warning incompatible_msg]
        else [])
    ++ (if nonempty (unresolved invalid)
        then Warning unresolved_header
             :: map license_line (unresolved invalid)
             ++ [SetFailed unresolved_msg]
        else [])
    ++ (if nonempty (unlicensed invalid)
        then Info unlicensed_header
             :: map unlicensed_line (unlicensed invalid)
        else []) /\
  (forbidden invalid = [] -> unresolved invalid = [] ->
   unlicensed invalid = [] ->
   trace (printLicensesBlock invalid fov) = [StartGroup "Licenses"]).
Proof.
  split; [apply printLicensesBlock_exact |].
  intros Hf Hu Hn. rewrite printLicensesBlock_exact, Hf, Hu, Hn. reflexivity.
Qed.

(** ** The dependency listing *)

(** X4.  A manifest the map lists has its changes: for a key of
    [dependencies.keys()] the lookup [dependencies.get] succeeds with
    changes the map holds under that key, so the fallback to the empty
    array is not taken; the lookup fails exactly for the names that are
    not keys. *)
Theorem listed_manifest_has_changes (m : ManifestMap) manifestName :
  (In manifestName (Map_keys m) ->
   exists cs, Map_get m manifestName = Some cs /\
              In (manifestName, cs) m /\
              manifest_changes m manifestName = cs) /\
  (Map_get m manifestName = None <-> ~ In manifestName (Map_keys m)).
Proof.
  unfold manifest_changes, Map_get, Map_keys.
  induction m as [| [k cs] m IH]; simpl.
  - split; [intros [] | split; [intros _ [] | reflexivity]].
  - destruct (k =? manifestName)%string eqn:Hk.
    + apply String.eqb_eq in Hk. subst k. split.
      * intros _. exists cs. simpl. repeat split; auto.
      * split; [discriminate | intros H; destruct H; left; reflexivity].
    + apply String.eqb_neq in Hk. destruct IH as [IH1 IH2]. split.
      * intros [Heq | Hin]; [congruence |].
        destruct (IH1 Hin) as (cs' & Hget & Hmem & Hch).
        exists cs'. repeat split; auto.
      * rewrite IH2. split; [intros H [Heq | Hin]; [congruence | auto] |
                             intros H Hin; apply H; right; exact Hin].
Qed.

Lemma render_known change :
  known_change_type change ->
  exists line, renderScannedDependency change = inr line.
Proof.
  unfold known_change_type, renderScannedDependency.
  intros [-> | ->]; eexists; reflexivity.
Qed.

(** X5.  When every change under every listed manifest is added or
    removed, [printScannedDependencies] is not rejected: it opens its
    group and logs, manifest by manifest in the order of the map, the
    file line followed by one rendered line per change. *)
Theorem listing_of_known_changes changes :
  (forall manifestName change,
     In manifestName (Map_keys (groupDependenciesByManifest imp changes)) ->
     In change (manifest_changes (groupDependenciesByManifest imp changes)
                  manifestName) ->
     known_change_type change) ->
  trace (printScannedDependencies imp changes) =
    StartGroup "Dependency Changes"
    :: flat_map
         (fun manifestName =>
            Info ("File: " ++ styles.bold_open ++ manifestName
                  ++ styles.bold_close)%string
            :: flat_map
                 (fun change =>
                    match renderScannedDependency change with
                    | inr line => [Info line]
                    | inl _ => []
                    end)
                 (manifest_changes (groupDependenciesByManifest imp changes)
                    manifestName))
         (Map_keys (groupDependenciesByManifest imp changes)).
Proof.
  intros Hknown.
  unfold printScannedDependencies. rewrite group_trace.
  fold (manifest_changes (groupDependenciesByManifest imp changes)).
  set (m := groupDependenciesByManifest imp changes) in *.
  assert (Hinner : forall manifestName,
             In manifestName (Map_keys m) ->
             outcome (for_of (manifest_changes m manifestName)
                        (fun change =>
                           line <- lift (renderScannedDependency change) ;;
                           core.info line)) = inr tt /\
             trace (for_of (manifest_changes m manifestName)
                      (fun change =>
                         line <- lift (renderScannedDependency change) ;;
                         core.info line)) =
             flat_map (fun change =>
                         match renderScannedDependency change with
                         | inr line => [Info line]
                         | inl _ => []
                         end)
                      (manifest_changes m manifestName)).
  { intros manifestName Hkey.
    assert (Hret : forall change,
               In change (manifest_changes m manifestName) ->
               outcome (line <- lift (renderScannedDependency change) ;;
                        core.info line) = inr tt).
    { intros change Hc.
      destruct (render_known change (Hknown _ _ Hkey Hc)) as [line ->].
      reflexivity. }
    split; [apply for_of_returns; exact Hret |].
    rewrite for_of_flat by exact Hret.
    apply flat_map_agree. intros change Hc.
    destruct (render_known change (Hknown _ _ Hkey Hc)) as [line ->].
    reflexivity. }
  assert (Hbody : forall manifestName,
             In manifestName (Map_keys m) ->
             outcome (core.info ("File: " ++ styles.bold_open ++ manifestName
                                 ++ styles.bold_close)%string ;;
                      for_of (manifest_changes m manifestName)
                        (fun change =>
                           line <- lift (renderScannedDependency change) ;;
                           core.info line)) = inr tt /\
             trace (core.info ("File: " ++ styles.bold_open ++ manifestName
                               ++ styles.bold_close)%string ;;
                    for_of (manifest_changes m manifestName)
                      (fun change =>
                         line <- lift (renderScannedDependency change) ;;
                         core.info line)) =
             Info ("File: " ++ styles.bold_open ++ manifestName
                   ++ styles.bold_close)%string
             :: flat_map (fun change =>
                            match renderScannedDependency change with
                            | inr line => [Info line]
                            | inl _ => []
                            end)
                         (manifest_changes m manifestName)).
  { intros manifestName Hkey. destruct (Hinner _ Hkey) as [Hout Htr].
    rewrite (bind_returns _ _ tt) by reflexivity.
    split; [exact Hout |].
    cbn [trace fst core.info emit app]. f_equal. exact Htr. }
  rewrite for_of_returns by (intros k Hk; apply (Hbody k Hk)).
  rewrite app_nil_r.
  rewrite for_of_flat by (intros k Hk; apply (Hbody k Hk)).
  f_equal. apply flat_map_agree. intros k Hk. apply (Hbody k Hk).
Qed.

(** X6.  [renderScannedDependency] never renders an added and a removed
    change alike: two changes of known type with the same line have the
    same change type. *)
Theorem rendering_tells_added_from_removed c1 c2 :
  known_change_type c1 -> known_change_type c2 ->
  renderScannedDependency c1 = renderScannedDependency c2 ->
  change_type c1 = change_type c2.
Proof.
  unfold known_change_type, renderScannedDependency.
  intros [H1 | H1] [H2 | H2]; rewrite H1, H2; try reflexivity;
    cbn; intros H; discriminate H.
Qed.

(** ** Whole runs *)

Ltac split_events :=
  repeat match goal with
         | H : _ \/ _ |- _ => destruct H as [H | H]
         | H : _ /\ _ |- _ => destruct H
         | H : exists _, _ |- _ => destruct H
         end.

Lemma run_caught env thrown :
  early_error env = Some thrown ->
  trace (run imp env) = trace (on_error env thrown) ++ [SummaryWrite].
Proof.
  unfold early_error, run, try_catch_finally.
  destruct (readConfig env) as [e0 | config]; cbn [lift bind].
  { intros [= ->]. destruct (on_error env thrown); reflexivity. }
  destruct (getRefs env config) as [e0 | refs]; cbn [lift bind].
  { intros [= ->]. destruct (on_error env thrown); reflexivity. }
  destruct (compare env _ _ (fst refs) (snd refs)) as [e0 | changes];
    cbn [lift bind]; [| discriminate].
  intros [= ->]. destruct (on_error env thrown); reflexivity.
Qed.

(** X7.  When reading the configuration, resolving the refs or fetching
    the comparison throws, the run does nothing but mark itself failed
    and write the summary.  A request error of status 404 or 403 is
    reported with a fixed text (for 403 naming the repository's
    security settings), not with the error's own message; any other
    error is reported with its message, and a thrown value that is not
    an error as an unexpected fatal error. *)
Theorem early_errors_reported env :
  (forall message,
     early_error env = Some (RequestError 404 message) ->
     trace (run imp env) =
       [SetFailed "Dependency review could not obtain dependency data for the specified owner, repository, or revision range.";
        SummaryWrite]) /\
  (forall message,
     early_error env = Some (RequestError 403 message) ->
     trace (run imp env) =
       [SetFailed ("Dependency review is not supported on this repository. Please ensure that Dependency graph is enabled along with GitHub Advanced Security on private repositories, see https://github.com/"
                   ++ context_owner env ++ "/" ++ context_repo env
                   ++ "/settings/security_analysis")%string;
        SummaryWrite]) /\
  (forall status message,
     status <> 404%Z -> status <> 403%Z ->
     early_error env = Some (RequestError status message) ->
     trace (run imp env) = [SetFailed message; SummaryWrite]) /\
  (forall message,
     early_error env = Some (Error message) ->
     trace (run imp env) = [SetFailed message; SummaryWrite]) /\
  (early_error env = Some NotAnError ->
   trace (run imp env) = [SetFailed "Unexpected fatal error"; SummaryWrite]).
Proof.
  repeat split.
  - intros message H. rewrite (run_caught _ _ H). reflexivity.
  - intros message H. rewrite (run_caught _ _ H). reflexivity.
  - intros status message H404 H403 H. rewrite (run_caught _ _ H).
    apply Z.eqb_neq in H404, H403. simpl. rewrite H404, H403. reflexivity.
  - intros message H. rewrite (run_caught _ _ H). reflexivity.
  - intros H. rewrite (run_caught _ _ H). reflexivity.
Qed.

(** X8.  The summary is posted as a comment exactly in the runs that
    obtained a change set under a configuration with
    comment_summary_in_pr: never after an early error, never when there
    is no change set. *)
Theorem comment_posted_iff env :
  In CommentPr (trace (run imp env)) <->
  exists config changes,
    reaches env config (Some changes) /\
    comment_summary_in_pr config = true.
Proof.
  split.
  - destruct (run_cases env)
      as [[thrown Hearly] | [config [[changes |] Hreach]]].
    + destruct (run_catches imp env thrown Hearly) as [msg ->].
      intros [H | [H | []]]; discriminate.
    + intros He. exists config, changes. split; [exact Hreach |].
      apply (evaluation_events imp env config changes _ Hreach) in He.
      split_events; try discriminate; try assumption.
      match goal with
      | H : CommentPr = (if ?b then _ else _) |- _ =>
          destruct b; discriminate
      end.
    + rewrite (run_skips imp env config Hreach).
      intros [H | [H | []]]; discriminate.
  - intros (config & changes & Hreach & Hflag).
    rewrite (run_evaluates imp env config changes Hreach).
    do 3 (apply in_or_app; right). right.
    apply in_or_app; right. apply in_or_app; left.
    unfold comment_part. rewrite Hflag. left; reflexivity.
Qed.

Lemma reaches_posting env comment config changes :
  reaches env config changes -> reaches (posting env comment) config changes.
Proof. intros H; exact H. Qed.

(** X9.  When posting the comment throws, the run has already produced
    everything it produces when the posting succeeds; the error is then
    reported with [setFailed] and the summary is written. *)
Theorem comment_failure_comes_last env config changes thrown :
  reaches env config (Some changes) ->
  comment_summary_in_pr config = true ->
  commentPr env = inl thrown ->
  exists before msg,
    trace (run imp env) = before ++ [CommentPr; SetFailed msg; SummaryWrite] /\
    trace (run imp (posting env (inr tt)))
    = before ++ [CommentPr; SummaryWrite].
Proof.
  intros Hreach Hflag Hthrown.
  rewrite (run_evaluates imp env config changes Hreach).
  rewrite (run_evaluates imp (posting env (inr tt)) config changes
             (reaches_posting _ _ _ _ Hreach)).
  unfold comment_part. rewrite Hflag, Hthrown. simpl commentPr.
  destruct (on_error_sets_failed env thrown) as [msg ->].
  exists (pipeline_part imp config changes
          ++ vulnerability_part imp config changes
          ++ license_part imp config changes
          ++ AddScannedDependencies changes
             :: trace (printScannedDependencies imp changes)), msg.
  split; repeat (rewrite <- app_assoc; cbn [app trace fst]); reflexivity.
Qed.

(** X10.  Whatever the scopes, allowlists and checks of the
    configuration, the dependency listing is made of the changes as
    [compare] returned them, not of a filtered sequence. *)
Theorem dependency_listing_is_unfiltered env config changes :
  reaches env config (Some changes) ->
  exists before after,
    trace (run imp env) =
      before
      ++ AddScannedDependencies changes
         :: trace (printScannedDependencies imp changes)
      ++ after.
Proof.
  intros Hreach. rewrite (run_evaluates imp env config changes Hreach).
  exists (pipeline_part imp config changes
          ++ vulnerability_part imp config changes
          ++ license_part imp config changes),
         (comment_part env config ++ [SummaryWrite]).
  repeat (rewrite <- app_assoc; cbn [app]). reflexivity.
Qed.

Lemma in_license_lines e changes :
  In e (map license_line changes) -> exists msg, e = Info msg.
Proof.
  intros H. apply in_map_iff in H. destruct H as [c [<- _]].
  eexists; reflexivity.
Qed.

Lemma in_unlicensed_lines e changes :
  In e (map unlicensed_line changes) -> exists msg, e = Info msg.
Proof.
  intros H. apply in_map_iff in H. destruct H as [c [<- _]].
  eexists; reflexivity.
Qed.

(** The warnings of the licenses block. *)
Lemma license_warnings invalid fov msg :
  In (Warning msg) (trace (printLicensesBlock invalid fov)) ->
  (msg = incompatible_msg /\ fov = false /\ forbidden invalid <> [])
  \/ msg = unresolved_header.
Proof.
  rewrite printLicensesBlock_exact. intros [H | H]; [discriminate |].
  apply in_app_or in H. destruct H as [H | H].
  - destruct (nonempty (forbidden invalid)) eqn:Hne; [| destruct H].
    apply nonempty_true in Hne.
    destruct H as [H | H]; [discriminate |].
    apply in_app_or in H. destruct H as [H | [H | []]].
    + apply in_license_lines in H. destruct H; discriminate.
    + destruct fov; [discriminate |]. injection H as <-. auto.
  - apply in_app_or in H. destruct H as [H | H].
    + destruct (nonempty (unresolved invalid)); [| destruct H].
      destruct H as [H | H]; [injection H as <-; auto |].
      apply in_app_or in H. destruct H as [H | [H | []]]; [| discriminate].
      apply in_license_lines in H. destruct H; discriminate.
    + destruct (nonempty (unlicensed invalid)); [| destruct H].
      destruct H as [H | H]; [discriminate |].
      apply in_unlicensed_lines in H. destruct H; discriminate.
Qed.

(** X11.  A run that got a change set warns about vulnerable packages
    exactly when the vulnerability check is on, fail_on_severity is
    none and there are vulnerable changes; it warns about incompatible
    licenses exactly when the license check is on, fail_on_severity is
    none and the forbidden bucket is non-empty. *)
Theorem warnings_instead_of_failures env config changes :
  reaches env config (Some changes) ->
  (In (Warning vulnerable_msg) (trace (run imp env)) <->
   vulnerability_check config = true /\
   fail_on_severity config = none /\
   vulnerableChanges_of imp config changes <> []) /\
  (In (Warning incompatible_msg) (trace (run imp env)) <->
   license_check config = true /\
   fail_on_severity config = none /\
   forbidden (invalidLicenseChanges_of imp config changes) <> []).
Proof.
  intros Hreach.
  assert (Hnone : failOnVulnerability_of config = false <->
                  fail_on_severity config = none).
  { unfold failOnVulnerability_of.
    destruct (fail_on_severity config); split; congruence. }
  assert (Hother : forall msg,
    In (Warning msg) (trace (run imp env)) ->
    (vulnerability_check config = true /\
     nonempty (vulnerableChanges_of imp config changes) = true /\
     failOnVulnerability_of config = false /\ msg = vulnerable_msg)
    \/ (license_check config = true /\
        In (Warning msg)
           (trace (printLicensesBlock
                     (invalidLicenseChanges_of imp config changes)
                     (failOnVulnerability_of config))))).
  { intros msg He. rewrite (run_evaluates imp env config changes Hreach) in He.
    apply in_segments in He.
    destruct He as [He | [He | [He | [He | [He | [He | [He | []]]]]]]].
    - unfold pipeline_part in He. simpl in He.
      repeat (destruct He as [He | He]; [discriminate |]). destruct He.
    - apply vulnerability_part_events in He.
      destruct He as [Hcheck [He | [He | [[? He] | [Hne He]]]]];
        try discriminate.
      destruct (failOnVulnerability_of config); [discriminate |].
      injection He as ->. left; auto.
    - unfold license_part in He.
      destruct (license_check config); [| destruct He].
      destruct He as [He | He]; [discriminate |]. right; auto.
    - discriminate.
    - apply printScannedDependencies_events in He.
      destruct He as [He | [[? He] | (? & ? & He & _)]]; discriminate.
    - apply comment_part_events in He.
      destruct He as [He | [? He]]; discriminate.
    - discriminate. }
  split; split.
  - intros He. apply Hother in He.
    destruct He as [(Hcheck & Hne & Hfov & _) | [_ He]].
    + apply nonempty_true in Hne. apply Hnone in Hfov. auto.
    + apply license_warnings in He.
      destruct He as [[He _] | He]; discriminate.
  - intros (Hcheck & Hfos & Hne).
    rewrite (run_evaluates imp env config changes Hreach).
    apply in_or_app; right. apply in_or_app; left.
    unfold vulnerability_part. rewrite Hcheck. right.
    destruct (printVulnerabilitiesBlock_trace
                (vulnerableChanges_of imp config changes)
                (minSeverity_of config) (failOnVulnerability_of config))
      as [infos [_ ->]].
    { intros c Hc. apply vulnerableChanges_added in Hc.
      destruct Hc as [_ [vulns [-> _]]]; discriminate. }
    apply nonempty_true in Hne. apply Hnone in Hfos. rewrite Hne, Hfos.
    right. apply in_or_app; right. left; reflexivity.
  - intros He. apply Hother in He.
    destruct He as [(_ & _ & _ & He) | [Hcheck He]]; [discriminate |].
    apply license_warnings in He.
    destruct He as [(_ & Hfov & Hne) | He]; [| discriminate].
    apply Hnone in Hfov. auto.
  - intros (Hcheck & Hfos & Hne).
    rewrite (run_evaluates imp env config changes Hreach).
    apply in_or_app; right. apply in_or_app; right. apply in_or_app; left.
    unfold license_part. rewrite Hcheck. right.
    rewrite printLicensesBlock_exact.
    apply nonempty_true in Hne. apply Hnone in Hfos. rewrite Hne, Hfos.
    right. apply in_or_app; left. right.
    apply in_or_app; right. left; reflexivity.
Qed.

(** ** What a run logs and calls *)

Lemma in_bind {A B} (m : M A) (k : A -> M B) e :
  In e (trace (bind m k)) ->
  In e (trace m) \/ exists a, outcome m = inr a /\ In e (trace (k a)).
Proof.
  destruct m as [t [thrown | a]]; simpl; [auto |].
  destruct (k a) as [t' r] eqn:Hk; simpl. intros H.
  apply in_app_or in H. destruct H as [H | H]; [auto |].
  right. exists a. rewrite Hk. auto.
Qed.

Lemma in_for_of {A} (xs : list A) (body : A -> M unit) e :
  In e (trace (for_of xs body)) ->
  exists x, In x xs /\ In e (trace (body x)).
Proof.
  induction xs as [| x xs IH]; simpl; [intros [] |].
  intros H. apply in_bind in H. destruct H as [H | [[] [_ H]]].
  - exists x; auto.
  - destruct (IH H) as [y [Hy He]]. exists y; auto.
Qed.

(** The lines of the dependency listing. *)
Lemma listing_lines changes e :
  In e (trace (printScannedDependencies imp changes)) ->
  e = StartGroup "Dependency Changes"
  \/ (exists manifestName,
        e = Info ("File: " ++ styles.bold_open ++ manifestName
                  ++ styles.bold_close)%string)
  \/ (exists change line,
        renderScannedDependency change = inr line /\ e = Info line)
  \/ (exists thrown, e = Rejected "Dependency Changes" thrown).
Proof.
  unfold printScannedDependencies. rewrite group_trace.
  intros [<- | H]; [auto |].
  apply in_app_or in H. destruct H as [H | H].
  - apply in_for_of in H. destruct H as [manifestName [_ H]].
    apply in_bind in H. destruct H as [[<- | []] | [[] [_ H]]]; [eauto |].
    apply in_for_of in H. destruct H as [change [_ H]].
    apply in_bind in H. destruct H as [[] | [line [Hline H]]].
    destruct H as [<- | []]. right; right; left.
    exists change, line. split; [exact Hline | reflexivity].
  - right; right; right.
    match type of H with
    | In _ (match ?o with inl _ => _ | inr _ => _ end) =>
        destruct o as [thrown | u]; [| destruct H]
    end.
    destruct H as [<- | []]. eauto.
Qed.

Lemma rendered_line_is_coloured change line :
  renderScannedDependency change = inr line ->
  exists rest, line = String (ascii_of_nat 27) rest.
Proof.
  unfold renderScannedDependency.
  destruct (negb (change_type change =? "added")
            && negb (change_type change =? "removed"))%string;
    [discriminate |].
  intros [= <-].
  destruct (change_type change =? "added")%string; eexists; reflexivity.
Qed.

Lemma all_clear_line_injective s1 s2 :
  all_clear_line s1 = all_clear_line s2 -> s1 = s2.
Proof. destruct s1, s2; intros H; try reflexivity; discriminate H. Qed.

(** X12.  A run that got a change set logs the all-clear line exactly
    when the vulnerability check is on and there is no vulnerable
    change, and the line names the minimum severity the run looked for:
    the configured one, or low when fail_on_severity is none. *)
Theorem all_clear_iff env config changes minSeverity :
  reaches env config (Some changes) ->
  In (all_clear_line minSeverity) (trace (run imp env)) <->
  vulnerability_check config = true /\
  vulnerableChanges_of imp config changes = [] /\
  minSeverity = match fail_on_severity config with
                | none => low
                | fail_on s => s
                end.
Proof.
  intros Hreach.
  assert (Hdef : forall c,
             In c (vulnerableChanges_of imp config changes) ->
             vulnerabilities c <> None).
  { intros c Hc. apply vulnerableChanges_added in Hc.
    destruct Hc as [_ [vulns [-> _]]]; discriminate. }
  rewrite (run_evaluates imp env config changes Hreach). split.
  - intros He. apply in_segments in He.
    destruct He as [He | [He | [He | [He | [He | [He | [He | []]]]]]]].
    + unfold pipeline_part in He. simpl in He.
      repeat (destruct He as [He | He]; [discriminate |]). destruct He.
    + unfold vulnerability_part in He.
      destruct (vulnerability_check config); [| destruct He].
      destruct He as [He | He]; [discriminate |].
      rewrite (printVulnerabilitiesBlock_exact _ _ _ Hdef) in He.
      destruct He as [He | He]; [discriminate |].
      apply in_app_or in He. destruct He as [He | [He | []]].
      * apply in_flat_map in He. destruct He as [c [_ He]].
        apply in_flat_map in He. destruct He as [v [_ He]].
        destruct He as [He | [He | []]]; discriminate He.
      * destruct (nonempty (vulnerableChanges_of imp config changes))
          eqn:Hne.
        -- destruct (failOnVulnerability_of config); discriminate He.
        -- apply all_clear_line_injective in He. split; [reflexivity |].
           split; [| symmetry; exact He].
           destruct (vulnerableChanges_of imp config changes);
             [reflexivity | discriminate Hne].
    + unfold license_part in He.
      destruct (license_check config); [| destruct He].
      destruct He as [He | He]; [discriminate |].
      rewrite printLicensesBlock_exact in He.
      destruct He as [He | He]; [discriminate |].
      apply in_app_or in He. destruct He as [He | He].
      * destruct (nonempty (forbidden _)); [| destruct He].
        destruct He as [He | He]; [discriminate He |].
        apply in_app_or in He. destruct He as [He | [He | []]].
        -- apply in_map_iff in He. destruct He as [c [He _]].
           discriminate He.
        -- destruct (failOnVulnerability_of config); discriminate He.
      * apply in_app_or in He. destruct He as [He | He].
        -- destruct (nonempty (unresolved _)); [| destruct He].
           destruct He as [He | He]; [discriminate He |].
           apply in_app_or in He. destruct He as [He | [He | []]];
             [| discriminate He].
           apply in_map_iff in He. destruct He as [c [He _]].
           discriminate He.
        -- destruct (nonempty (unlicensed _)); [| destruct He].
           destruct He as [He | He]; [discriminate He |].
           apply in_map_iff in He. destruct He as [c [He _]].
           discriminate He.
    + discriminate He.
    + apply listing_lines in He.
      destruct He as [He | [[k He] | [(c & line & Hline & He) | [t He]]]];
        try discriminate He.
      apply rendered_line_is_coloured in Hline. destruct Hline as [rest ->].
      discriminate He.
    + apply comment_part_events in He.
      destruct He as [He | [? He]]; discriminate He.
    + discriminate He.
  - intros (Hcheck & Hempty & ->).
    apply in_or_app; right. apply in_or_app; left.
    unfold vulnerability_part. rewrite Hcheck. right.
    rewrite (printVulnerabilitiesBlock_exact _ _ _ Hdef), Hempty.
    right. left; reflexivity.
Qed.

Lemma no_calls t :
  (forall e, In e t -> is_Called e = false) -> filter is_Called t = [].
Proof.
  induction t as [| e t IH]; intros H; simpl; [reflexivity |].
  rewrite (H e) by (left; reflexivity).
  apply IH. intros e' He'; apply H; right; exact He'.
Qed.

(** X13.  A run that got a change set calls each of the four pipeline
    functions exactly once and in this order: scope filter, advisory
    allowlist filter, severity filter, license classification; the
    printing that follows makes no further call. *)
Theorem pipeline_called_once env config changes :
  reaches env config (Some changes) ->
  filter is_Called (trace (run imp env)) =
    [Called (call_filterChangesByScopes (fail_on_scopes config) changes);
     Called (call_filterAllowedAdvisories (allow_ghsas config)
               (filterChangesByScopes imp (fail_on_scopes config) changes));
     Called (call_filterChangesBySeverity (minSeverity_of config)
               (filteredChanges_of imp config changes));
     Called (call_getInvalidLicenseChanges
               (filteredChanges_of imp config changes)
               (allow_licenses config) (deny_licenses config))].
Proof.
  intros Hreach. rewrite (run_evaluates imp env config changes Hreach).
  rewrite filter_app.
  assert (Hrest : filter is_Called
            (vulnerability_part imp config changes
             ++ license_part imp config changes
             ++ AddScannedDependencies changes
                :: trace (printScannedDependencies imp changes)
             ++ comment_part env config ++ [SummaryWrite]) = []).
  { apply no_calls. intros e He.
    apply in_app_or in He. destruct He as [He | He].
    { apply vulnerability_part_events in He.
      destruct He as [_ [-> | [-> | [[? ->] | [_ ->]]]]]; try reflexivity.
      destruct (failOnVulnerability_of config); reflexivity. }
    apply in_app_or in He. destruct He as [He | He].
    { apply license_part_events in He.
      destruct He as [_ [-> | [-> | [[? ->] | [[? ->] |
                      [(_ & _ & ->) | [_ ->]]]]]]]; reflexivity. }
    destruct He as [<- | He]; [reflexivity |].
    apply in_app_or in He. destruct He as [He | He].
    { apply printScannedDependencies_events in He.
      destruct He as [-> | [[? ->] | (? & ? & -> & _)]]; reflexivity. }
    apply in_app_or in He. destruct He as [He | [<- | []]];
      [| reflexivity].
    apply comment_part_events in He.
    destruct He as [-> | [? ->]]; reflexivity. }
  rewrite Hrest, app_nil_r. reflexivity.
Qed.

End Reports.

(** ** The further properties on the samples *)

(** One change with one vulnerability: four events. *)
Lemma vulnerabilities_block_report_witness :
  (forall c, In c [Sample.added_high] -> vulnerabilities c <> None) /\
  List.length (trace (printVulnerabilitiesBlock [Sample.added_high] high true))
  = 4.
Proof.
  assert (H : forall c, In c [Sample.added_high] -> vulnerabilities c <> None)
    by (intros c [<- | []]; discriminate).
  split; [exact H |].
  exact (proj2 (vulnerabilities_block_report [Sample.added_high] high true H)).
Defined.

(** A change without its list of vulnerabilities after one that has it:
    the first is printed, then the callback is rejected. *)
Lemma undefined_vulnerabilities_lose_the_verdict_witness :
  In Sample.added_unscanned [Sample.added_high; Sample.added_unscanned] /\
  vulnerabilities Sample.added_unscanned = None /\
  exists infos thrown,
    forallb is_Info infos = true /\
    trace (printVulnerabilitiesBlock
             [Sample.added_high; Sample.added_unscanned] low true) =
      (StartGroup "Vulnerabilities" :: infos
       ++ [Rejected "Vulnerabilities" thrown])%list.
Proof.
  assert (H : In Sample.added_unscanned
                 [Sample.added_high; Sample.added_unscanned])
    by (right; left; reflexivity).
  split; [exact H |]. split; [reflexivity |].
  exact (undefined_vulnerabilities_lose_the_verdict
           [Sample.added_high; Sample.added_unscanned] low true
           Sample.added_unscanned H eq_refl).
Defined.

(** Three empty buckets: only the group is opened. *)
Lemma licenses_block_report_witness :
  forbidden (mkInvalid [] [] []) = [] /\
  unresolved (mkInvalid [] [] []) = [] /\
  unlicensed (mkInvalid [] [] []) = [] /\
  trace (printLicensesBlock (mkInvalid [] [] []) true)
  = [StartGroup "Licenses"].
Proof.
  do 3 (split; [reflexivity |]).
  exact (proj2 (licenses_block_report (mkInvalid [] [] []) true)
               eq_refl eq_refl eq_refl).
Defined.

(** The manifest of a grouped change is found again. *)
Lemma listed_manifest_has_changes_witness :
  In "go.mod"
     (Map_keys (SpecModel.groupDependenciesByManifest
                  [Sample.added_high; Sample.updated])) /\
  exists cs,
    Map_get (SpecModel.groupDependenciesByManifest
               [Sample.added_high; Sample.updated]) "go.mod" = Some cs /\
    In ("go.mod", cs)
       (SpecModel.groupDependenciesByManifest
          [Sample.added_high; Sample.updated]) /\
    manifest_changes (SpecModel.groupDependenciesByManifest
                        [Sample.added_high; Sample.updated]) "go.mod" = cs.
Proof.
  assert (H : In "go.mod"
                 (Map_keys (SpecModel.groupDependenciesByManifest
                              [Sample.added_high; Sample.updated])))
    by (right; left; reflexivity).
  split; [exact H |].
  exact (proj1 (listed_manifest_has_changes
                  (SpecModel.groupDependenciesByManifest
                     [Sample.added_high; Sample.updated]) "go.mod") H).
Defined.

Lemma sample_known change :
  In change [Sample.added_high; Sample.removed_critical] ->
  known_change_type change.
Proof.
  intros [<- | [<- | []]]; [left | right]; reflexivity.
Qed.

(** An added and a removed change of one manifest: a file line and two
    rendered lines. *)
Lemma listing_of_known_changes_witness :
  (forall manifestName change,
     In manifestName
        (Map_keys (groupDependenciesByManifest SpecModel.imports
                     [Sample.added_high; Sample.removed_critical])) ->
     In change
        (manifest_changes (groupDependenciesByManifest SpecModel.imports
                             [Sample.added_high; Sample.removed_critical])
           manifestName) ->
     known_change_type change) /\
  List.length (trace (printScannedDependencies SpecModel.imports
                        [Sample.added_high; Sample.removed_critical])) = 4.
Proof.
  assert (H : forall manifestName change,
     In manifestName
        (Map_keys (groupDependenciesByManifest SpecModel.imports
                     [Sample.added_high; Sample.removed_critical])) ->
     In change
        (manifest_changes (groupDependenciesByManifest SpecModel.imports
                             [Sample.added_high; Sample.removed_critical])
           manifestName) ->
     known_change_type change).
  { intros manifestName change [<- | []] Hc. apply sample_known. exact Hc. }
  split; [exact H |].
  rewrite (listing_of_known_changes SpecModel.imports _ H). reflexivity.
Defined.

(** An added and a removed change render differently. *)
Lemma rendering_tells_added_from_removed_witness :
  known_change_type Sample.added_high /\
  known_change_type Sample.removed_critical /\
  renderScannedDependency Sample.added_high
  <> renderScannedDependency Sample.removed_critical.
Proof.
  assert (H1 : known_change_type Sample.added_high) by (left; reflexivity).
  assert (H2 : known_change_type Sample.removed_critical)
    by (right; reflexivity).
  split; [exact H1 |]. split; [exact H2 |].
  intros Heq.
  pose proof (rendering_tells_added_from_removed _ _ H1 H2 Heq) as H.
  discriminate H.
Defined.

(** A comparison answered with 404: the fixed text, then the summary. *)
Lemma early_errors_reported_witness :
  early_error Sample.env_not_found = Some (RequestError 404 "Not Found") /\
  trace (run SpecModel.imports Sample.env_not_found) =
    [SetFailed "Dependency review could not obtain dependency data for the specified owner, repository, or revision range.";
     SummaryWrite].
Proof.
  split; [reflexivity |].
  exact (proj1 (early_errors_reported SpecModel.imports Sample.env_not_found)
               "Not Found" eq_refl).
Defined.

(** A comment that cannot be posted. *)
Lemma comment_failure_comes_last_witness :
  reaches (Sample.env Sample.config_comment (Some [Sample.added_gpl])
             (inl (Error "Resource not accessible by integration")))
          Sample.config_comment (Some [Sample.added_gpl]) /\
  comment_summary_in_pr Sample.config_comment = true /\
  exists before msg,
    trace (run SpecModel.imports
             (Sample.env Sample.config_comment (Some [Sample.added_gpl])
                (inl (Error "Resource not accessible by integration"))))
    = (before ++ [CommentPr; SetFailed msg; SummaryWrite])%list /\
    trace (run SpecModel.imports
             (posting
                (Sample.env Sample.config_comment (Some [Sample.added_gpl])
                   (inl (Error "Resource not accessible by integration")))
                (inr tt)))
    = (before ++ [CommentPr; SummaryWrite])%list.
Proof.
  split; [apply sample_reaches |]. split; [reflexivity |].
  exact (comment_failure_comes_last SpecModel.imports _ _ _ _
           (sample_reaches Sample.config_comment (Some [Sample.added_gpl])
              (inl (Error "Resource not accessible by integration")))
           eq_refl eq_refl).
Defined.

(** Development dependencies are listed although only runtime scope
    would be evaluated. *)
Lemma dependency_listing_is_unfiltered_witness :
  reaches (Sample.env Sample.config_checks_off
             (Some [Sample.added_compound]) (inr tt))
          Sample.config_checks_off (Some [Sample.added_compound]) /\
  exists before after,
    trace (run SpecModel.imports
             (Sample.env Sample.config_checks_off
                (Some [Sample.added_compound]) (inr tt))) =
      (before
       ++ AddScannedDependencies [Sample.added_compound]
          :: trace (printScannedDependencies SpecModel.imports
                      [Sample.added_compound])
       ++ after)%list.
Proof.
  split; [apply sample_reaches |].
  exact (dependency_listing_is_unfiltered SpecModel.imports _ _ _
           (sample_reaches Sample.config_checks_off
              (Some [Sample.added_compound]) (inr tt))).
Defined.

(** Under fail_on_severity none a high vulnerability is a warning. *)
Lemma warnings_instead_of_failures_witness :
  reaches (Sample.env Sample.config_none (Some [Sample.added_high]) (inr tt))
          Sample.config_none (Some [Sample.added_high]) /\
  In (Warning vulnerable_msg)
     (trace (run SpecModel.imports
               (Sample.env Sample.config_none (Some [Sample.added_high])
                  (inr tt)))).
Proof.
  split; [apply sample_reaches |].
  apply (proj1 (warnings_instead_of_failures SpecModel.imports _ _ _
                  (sample_reaches Sample.config_none
                     (Some [Sample.added_high]) (inr tt)))).
  repeat split; discriminate.
Defined.

(** Under fail_on_severity none and without vulnerable change the run
    reports that it looked for severity low. *)
Lemma all_clear_iff_witness :
  reaches (Sample.env Sample.config_none (Some [Sample.added_gpl]) (inr tt))
          Sample.config_none (Some [Sample.added_gpl]) /\
  In (all_clear_line low)
     (trace (run SpecModel.imports
               (Sample.env Sample.config_none (Some [Sample.added_gpl])
                  (inr tt)))).
Proof.
  split; [apply sample_reaches |].
  apply (all_clear_iff SpecModel.imports _ _ _ low
           (sample_reaches Sample.config_none (Some [Sample.added_gpl])
              (inr tt))).
  repeat split.
Defined.

(** Four calls, also when both checks are off. *)
Lemma pipeline_called_once_witness :
  reaches (Sample.env Sample.config_checks_off (Some [Sample.added_high])
             (inr tt))
          Sample.config_checks_off (Some [Sample.added_high]) /\
  List.length
    (filter is_Called
       (trace (run SpecModel.imports
                 (Sample.env Sample.config_checks_off
                    (Some [Sample.added_high]) (inr tt))))) = 4.
Proof.
  split; [apply sample_reaches |].
  rewrite (pipeline_called_once SpecModel.imports _ _ _
             (sample_reaches Sample.config_checks_off
                (Some [Sample.added_high]) (inr tt))).
  reflexivity.
Defined.
